(** * fluctour: route construction and day allocation

    A shallow embedding of [fluctour/itinerary.py], of the parts of
    [maps_client.py] it calls, and of [utils.validate_itinerary_params],
    with the properties the specification states about them.

    Conventions.
    - Python [int] is [Z]; [//] on integers is [Z.div] (both round towards
      minus infinity) and raises [ZeroDivisionError] on a zero divisor.
    - Python [float] is an abstract carrier [F] with the operations the code
      uses (class [PyFloat]).  Theorems that need arithmetic facts take them
      from [PyFloatLaws]; these hold for real numbers and for finite doubles
      compared with [==], and are instantiated at [R] below.
    - Exceptions are values of [exn]; a call of the program is a function from
      the event trace so far to a result and the extended trace (monad [M]).
      The trace records every collaborator call with its answer and every
      log record, newest first. *)

From Stdlib Require Import ZArith List Ascii String Bool Lia.
From Stdlib Require Import DecimalString.
From Stdlib Require Import Permutation Sorted.
From Stdlib Require Import Reals Lra.
Import ListNotations.
Local Open Scope string_scope.
Local Open Scope Z_scope.

(** ** Exceptions *)

Inductive exn : Type :=
| ValueError (msg : string)
| ZeroDivisionError
| KeyError (key : string)
| IndexError
| TypeError
| AttributeError
| ApiError (msg : string).

(** [str(e)] as used in the log messages. *)
Definition exn_str (e : exn) : string :=
  match e with
  | ValueError m => m
  | ZeroDivisionError => "division by zero"
  | KeyError k => "'" ++ k ++ "'"
  | IndexError => "list index out of range"
  | TypeError => "type error"
  | AttributeError => "attribute error"
  | ApiError m => m
  end.

Inductive result (A : Type) : Type :=
| Ok (a : A)
| Raise (e : exn).
Arguments Ok {A} a.
Arguments Raise {A} e.

(** ** Floats

    The operations on floats that the code uses.  [math.sqrt] and
    [math.asin] raise outside their domains; the code applies them to the
    haversine term and its root only, and they are taken as total. *)

Class PyFloat (F : Type) : Type := {
  of_int : Z -> F;            (* int -> float conversion, integer literals *)
  f1_5 : F;                   (* the literal 1.5 *)
  fadd : F -> F -> F;
  fsub : F -> F -> F;
  fmul : F -> F -> F;
  fdiv : F -> F -> F;         (* quotient for a non-zero divisor *)
  fneg : F -> F;
  fpow2 : F -> F;             (* x ** 2 *)
  fltb : F -> F -> bool;
  fleb : F -> F -> bool;
  feqb : F -> F -> bool;
  radians : F -> F;           (* math.radians *)
  fsin : F -> F;              (* math.sin *)
  fcos : F -> F;              (* math.cos *)
  fasin : F -> F;             (* math.asin *)
  fsqrt : F -> F;             (* math.sqrt *)
  frepr : F -> string         (* formatting inside an f-string *)
}.

(** The facts about float arithmetic that the proofs use: [<] is a strict
    total order and [==] is equality (no NaN; [0.0] and [-0.0] are one
    value), products, roots and arcsines of non-negative numbers are
    non-negative, subtraction and sine are odd, squaring is even, and the
    zero laws of a value that is not infinite. *)
Class PyFloatLaws (F : Type) `{PyFloat F} : Prop := {
  feqb_eq : forall a b, feqb a b = true <-> a = b;
  fltb_irrefl : forall a, fltb a a = false;
  fltb_trans : forall a b c,
      fltb a b = true -> fltb b c = true -> fltb a c = true;
  fltb_negtrans : forall a b c,
      fltb a b = false -> fltb b c = false -> fltb a c = false;
  fltb_total : forall a b, fltb a b = false -> fltb b a = false -> a = b;
  of_int_nonneg : forall z, 0 <= z -> fltb (of_int z) (of_int 0) = false;
  fmul_nonneg : forall a b,
      fltb a (of_int 0) = false -> fltb b (of_int 0) = false ->
      fltb (fmul a b) (of_int 0) = false;
  fsqrt_nonneg : forall a, fltb (fsqrt a) (of_int 0) = false;
  fasin_nonneg : forall a,
      fltb a (of_int 0) = false -> fltb (fasin a) (of_int 0) = false;
  fsub_anti : forall a b, fsub a b = fneg (fsub b a);
  fsub_diag : forall a, fsub a a = of_int 0;
  fdiv_neg_2 : forall a, fdiv (fneg a) (of_int 2) = fneg (fdiv a (of_int 2));
  fdiv_0_2 : fdiv (of_int 0) (of_int 2) = of_int 0;
  fsin_odd : forall a, fsin (fneg a) = fneg (fsin a);
  fsin_0 : fsin (of_int 0) = of_int 0;
  fpow2_neg : forall a, fpow2 (fneg a) = fpow2 a;
  fpow2_0 : fpow2 (of_int 0) = of_int 0;
  fmul_comm : forall a b, fmul a b = fmul b a;
  fmul_0_r : forall a, fmul a (of_int 0) = of_int 0;
  fadd_0_0 : fadd (of_int 0) (of_int 0) = of_int 0;
  fsqrt_0 : fsqrt (of_int 0) = of_int 0;
  fasin_0 : fasin (of_int 0) = of_int 0
}.

(** True division [a / b] of Python: raises on a zero divisor. *)
Definition py_truediv {F} `{PyFloat F} (a b : F) : result F :=
  if feqb b (of_int 0) then Raise ZeroDivisionError else Ok (fdiv a b).

(** Floor division [a // b] on integers. *)
Definition py_floordiv (a b : Z) : result Z :=
  if (b =? 0)%Z then Raise ZeroDivisionError else Ok (a / b)%Z.

(** ** JSON values, as the googlemaps client returns them *)

#[warnings="-register-all"] Inductive json (F : Type) : Type :=
| JNull
| JBool (b : bool)
| JNum (x : F)
| JStr (s : string)
| JArr (l : list (json F))
| JObj (d : list (string * json F)).
Arguments JNull {F}.
Arguments JBool {F} b.
Arguments JNum {F} x.
Arguments JStr {F} s.
Arguments JArr {F} l.
Arguments JObj {F} d.

(** Lookup of a key in a dict (first binding). *)
Fixpoint dict_lookup {A : Type} (k : string) (d : list (string * A)) : option A :=
  match d with
  | [] => None
  | (k', v) :: d' => if String.eqb k k' then Some v else dict_lookup k d'
  end.

(** [d.get(k, default)] on a JSON value: only a dict has [get]. *)
Definition json_get {F} (v : json F) (k : string) (default : json F)
  : result (json F) :=
  match v with
  | JObj d => match dict_lookup k d with
              | Some x => Ok x
              | None => Ok default
              end
  | _ => Raise AttributeError
  end.

(** [v[0]]. *)
Definition json_first {F} (v : json F) : result (json F) :=
  match v with
  | JArr (x :: _) => Ok x
  | JArr [] => Raise IndexError
  | JStr (String c _) => Ok (JStr (String c EmptyString))
  | JStr EmptyString => Raise IndexError
  | JObj _ => Raise (KeyError "0")
  | _ => Raise TypeError
  end.

(** ** Dates

    A [datetime] is its proleptic Gregorian ordinal and the microseconds
    since midnight; [(e - s).days] is the floor of the difference in days. *)

Record datetime : Type := mkDatetime {
  toordinal : Z;
  micro_of_day : Z
}.

Definition micros_per_day : Z := 86400000000.

Definition delta_days (e s : datetime) : Z :=
  ((toordinal e - toordinal s) * micros_per_day
   + (micro_of_day e - micro_of_day s)) / micros_per_day.

Definition add_days (d : datetime) (days : Z) : datetime :=
  mkDatetime (toordinal d + days) (micro_of_day d).

(** [s.replace(" ", "+")]. *)
Fixpoint replace_space_plus (s : string) : string :=
  match s with
  | EmptyString => EmptyString
  | String c s' =>
      String (if Ascii.eqb c " "%char then "+"%char else c)
             (replace_space_plus s')
  end.

(** [sep.join(l)]. *)
Fixpoint join (sep : string) (l : list string) : string :=
  match l with
  | [] => ""
  | [x] => x
  | x :: l' => x ++ sep ++ join sep l'
  end.

(** [str(n)] for an integer. *)
Definition str_of_int (n : Z) : string :=
  NilZero.string_of_int (Z.to_int n).

(** True division [a / b] of two integers. *)
Definition int_truediv {F} `{PyFloat F} (a b : Z) : result F :=
  if b =? 0 then Raise ZeroDivisionError
  else Ok (fdiv (of_int a) (of_int b)).

(** [range(lo, hi)]. *)
Definition py_range (lo hi : Z) : list Z :=
  map (fun k => lo + Z.of_nat k) (seq 0 (Z.to_nat (hi - lo))).

(** [l[:n]]: for [n >= 0] the first [n] elements; a negative [n] counts
    from the end. *)
Definition py_slice_to {A : Type} (l : list A) (n : Z) : list A :=
  if n <? 0 then firstn (Z.to_nat (Z.of_nat (List.length l) + n)) l
  else firstn (Z.to_nat n) l.

Section Fluctour.

Context {F : Type} `{PF : PyFloat F}.

(** ** Data model *)

(** The dict built by [MapsClient.geocode_location]. *)
Record GeoResult : Type := mkGeo {
  geo_formatted_address : string;
  geo_lat : F;
  geo_lng : F;
  geo_place_id : string;
  geo_types : list string
}.

(** The dict built by [MapsClient.search_places_in_area]. *)
Record PlaceResult : Type := mkPlace {
  place_name : string;
  place_place_id : string;
  place_lat : F;
  place_lng : F;
  place_rating : F;
  place_types : list string;
  place_vicinity : string;
  place_formatted_address : string;
  place_search_type : string
}.

(** A location dict of the route is one or the other. *)
Inductive Location : Type :=
| Geocoded (g : GeoResult)
| Place (p : PlaceResult).

Definition lat (l : Location) : F :=
  match l with Geocoded g => geo_lat g | Place p => place_lat p end.
Definition lng (l : Location) : F :=
  match l with Geocoded g => geo_lng g | Place p => place_lng p end.
Definition formatted_address (l : Location) : string :=
  match l with
  | Geocoded g => geo_formatted_address g
  | Place p => place_formatted_address p
  end.
Definition place_id (l : Location) : string :=
  match l with Geocoded g => geo_place_id g | Place p => place_place_id p end.

(** The dict [{"lat": lat, "lng": lng}] passed to the place search. *)
Record Coord : Type := mkCoord { coord_lat : F; coord_lng : F }.

(** A route of a directions response is a JSON object. *)
Definition Route : Type := list (string * json F).

Record ScheduleEntry : Type := mkEntry {
  entry_location : Location;
  entry_start_date : string;
  entry_end_date : string;
  entry_days : Z;
  entry_google_maps_url : string
}.

Record TravelLeg : Type := mkLeg {
  leg_from : string;
  leg_to : string;
  leg_distance : json F;
  leg_duration : json F;
  leg_mode : string;
  leg_directions_url : string
}.

Record Itinerary : Type := mkItinerary {
  it_start_location : string;
  it_end_location : string;
  it_start_date : string;
  it_end_date : string;
  it_total_days : Z;
  it_locations : list Location;
  it_daily_schedule : list ScheduleEntry;
  it_travel_suggestions : list TravelLeg
}.

(** ** Events and the monad *)

Inductive LogLevel : Type := INFO | WARNING | ERROR.

Inductive Event : Type :=
| EGeocode (location : string) (r : result (list GeoResult))
| EDirections (origin destination : string) (r : result (list Route))
| ESearch (c : Coord) (radius : Z) (r : list PlaceResult)
| ELog (level : LogLevel) (msg : string).

Definition World : Type := list Event.

Definition M (A : Type) : Type := World -> result A * World.

Definition ret {A} (a : A) : M A := fun w => (Ok a, w).
Definition raise {A} (e : exn) : M A := fun w => (Raise e, w).
Definition bind {A B} (m : M A) (k : A -> M B) : M B :=
  fun w => match m w with
           | (Ok a, w') => k a w'
           | (Raise e, w') => (Raise e, w')
           end.
(** [try: m  except Exception as e: h e]. *)
Definition try_except {A} (m : M A) (h : exn -> M A) : M A :=
  fun w => match m w with
           | (Ok a, w') => (Ok a, w')
           | (Raise e, w') => h e w'
           end.
Definition lift {A} (r : result A) : M A := fun w => (r, w).
Definition log (level : LogLevel) (msg : string) : M unit :=
  fun w => (Ok tt, ELog level msg :: w).

Notation "x <- m ;; k" := (bind m (fun x => k))
  (at level 61, m at next level, right associativity).
Notation "m ;;; k" := (bind m (fun _ => k))
  (at level 61, right associativity).

(** ** Collaborators

    The generator is given its maps client, and the client wraps a
    googlemaps client ([self.client]).  The googlemaps client answers as a
    function of the request and of everything that happened before.
    Geocoding results are given with the fields [geocode_location] reads
    from them.  [search_places] is [MapsClient.search_places_in_area], taken
    at its interface: it catches the errors of the googlemaps client itself
    and returns a list of place dicts.  [strftime] is [datetime.strftime]. *)

Class Collaborators : Type := {
  client_geocode : World -> string -> result (list GeoResult);
  client_directions : World -> string -> string -> result (list Route);
  search_places : World -> Coord -> Z -> list PlaceResult;
  strftime : datetime -> string -> string
}.

Context {C : Collaborators}.

Definition call_geocode (location : string) : M (list GeoResult) :=
  fun w => let r := client_geocode w location in
           (r, EGeocode location r :: w).

Definition call_directions (origin destination : string) : M (list Route) :=
  fun w => let r := client_directions w origin destination in
           (r, EDirections origin destination r :: w).

Definition search_places_in_area (location : Coord) (radius : Z)
  : M (list PlaceResult) :=
  fun w => let r := search_places w location radius in
           (Ok r, ESearch location radius r :: w).

(** ** maps_client.py *)

Definition geocode_location (location : string) : M GeoResult :=
  try_except
    (results <- call_geocode location ;;
     match results with
     | [] => raise (ValueError ("Could not find location: " ++ location))
     | result :: _ => ret result
     end)
    (fun e =>
       log ERROR ("Error geocoding " ++ location ++ ": " ++ exn_str e) ;;;
       raise e).

Definition get_directions (origin destination : string) : M Route :=
  try_except
    (result <- call_directions origin destination ;;
     ret (match result with r :: _ => r | [] => [] end))
    (fun e =>
       log ERROR ("Error getting directions: " ++ exn_str e) ;;;
       raise e).

Definition get_google_maps_url (location : Location) : string :=
  "https://www.google.com/maps/place/?q=place_id:" ++ place_id location.

(** Called without waypoints. *)
Definition get_directions_url (origin destination : string) : string :=
  let base_url := "https://www.google.com/maps/dir/" in
  let all_points := [origin; destination] in
  let encoded_points := map replace_space_plus all_points in
  base_url ++ join "/" encoded_points.

(** ** itinerary.py *)

(** [math.sqrt] and [math.asin] are applied to the haversine term [a],
    which lies in [0, 1]; they are taken as total. *)
Definition _calculate_distance (loc1 loc2 : Location) : F :=
  let lat1 := radians (lat loc1) in
  let lng1 := radians (lng loc1) in
  let lat2 := radians (lat loc2) in
  let lng2 := radians (lng loc2) in
  let dlat := fsub lat2 lat1 in
  let dlng := fsub lng2 lng1 in
  let a :=
    fadd (fpow2 (fsin (fdiv dlat (of_int 2))))
         (fmul (fmul (fcos lat1) (fcos lat2))
               (fpow2 (fsin (fdiv dlng (of_int 2))))) in
  let c := fmul (of_int 2) (fasin (fsqrt a)) in
  let r := of_int 6371000 in
  fmul c r.

Definition _is_location_reasonable (start_geo end_geo location : Location)
  : bool :=
  let start_to_location := _calculate_distance start_geo location in
  let location_to_end := _calculate_distance location end_geo in
  let direct_distance := _calculate_distance start_geo end_geo in
  let total_with_stop := fadd start_to_location location_to_end in
  fleb total_with_stop (fmul direct_distance f1_5).

(** The body of the [try] of one iteration: the new list and whether the
    loop breaks. *)
Definition constraint_try (start_geo end_geo : Location) (max_stops : Z)
    (constraint_stops : list Location) (location : string)
  : M (list Location * bool) :=
  geo_location <- geocode_location location ;;
  if _is_location_reasonable start_geo end_geo (Geocoded geo_location) then
    let constraint_stops := (constraint_stops ++ [Geocoded geo_location])%list in
    if Z.of_nat (List.length constraint_stops) >=? max_stops
    then ret (constraint_stops, true)
    else ret (constraint_stops, false)
  else ret (constraint_stops, false).

Fixpoint constraint_loop (start_geo end_geo : Location) (max_stops : Z)
    (constraint_locations : list string) (constraint_stops : list Location)
  : M (list Location) :=
  match constraint_locations with
  | [] => ret constraint_stops
  | location :: rest =>
      r <- try_except
             (constraint_try start_geo end_geo max_stops
                             constraint_stops location)
             (fun e =>
                log WARNING ("Could not process constraint location '"
                             ++ location ++ "': " ++ exn_str e) ;;;
                ret (constraint_stops, false)) ;;
      if snd r then ret (fst r)
      else constraint_loop start_geo end_geo max_stops rest (fst r)
  end.

Definition _process_constraint_locations (constraint_locations : list string)
    (start_geo end_geo : Location) (max_stops : Z) : M (list Location) :=
  constraint_loop start_geo end_geo max_stops constraint_locations [].

(** The test of the inner loop of [_find_places_along_route]. *)
Definition away_from_ends (start_geo end_geo place : Location) : bool :=
  fltb (of_int 10000) (_calculate_distance place start_geo)
  && fltb (of_int 10000) (_calculate_distance place end_geo).

Fixpoint places_loop (start_geo end_geo : Location) (num_stops : Z)
    (indices : list Z) (places : list Location) : M (list Location) :=
  match indices with
  | [] => ret places
  | i :: rest =>
      ratio <- lift (int_truediv i (num_stops + 1)) ;;
      let lat_ := fadd (lat start_geo)
                       (fmul (fsub (lat end_geo) (lat start_geo)) ratio) in
      let lng_ := fadd (lng start_geo)
                       (fmul (fsub (lng end_geo) (lng start_geo)) ratio) in
      let search_location := mkCoord lat_ lng_ in
      nearby_places <- search_places_in_area search_location 30000 ;;
      let places :=
        match nearby_places with
        | [] => places
        | _ =>
            match find (away_from_ends start_geo end_geo)
                       (map Place nearby_places) with
            | Some place => (places ++ [place])%list
            | None => places
            end
        end in
      places_loop start_geo end_geo num_stops rest places
  end.

Definition _find_places_along_route (start_geo end_geo : Location)
    (num_stops : Z) : M (list Location) :=
  places_loop start_geo end_geo num_stops (py_range 1 (num_stops + 1)) [].

Definition route_position (start_geo end_geo stop : Location) : result F :=
  let start_to_stop := _calculate_distance start_geo stop in
  let start_to_end := _calculate_distance start_geo end_geo in
  if fltb (of_int 0) start_to_end
  then py_truediv start_to_stop start_to_end
  else Ok (of_int 0).

(** [sorted(l, key=...)]: the keys are computed first, in order; the sort
    is stable and compares keys with [<] only. *)
Fixpoint keys_of {A : Type} (key : A -> result F) (l : list A)
  : result (list (F * A)) :=
  match l with
  | [] => Ok []
  | x :: l' =>
      match key x with
      | Raise e => Raise e
      | Ok k =>
          match keys_of key l' with
          | Raise e => Raise e
          | Ok kl => Ok ((k, x) :: kl)
          end
      end
  end.

Fixpoint insert_keyed {A : Type} (x : F * A) (l : list (F * A))
  : list (F * A) :=
  match l with
  | [] => [x]
  | y :: l' =>
      if fltb (fst y) (fst x) then y :: insert_keyed x l' else x :: y :: l'
  end.

Fixpoint sort_keyed {A : Type} (l : list (F * A)) : list (F * A) :=
  match l with
  | [] => []
  | x :: l' => insert_keyed x (sort_keyed l')
  end.

Definition sorted {A : Type} (l : list A) (key : A -> result F)
  : result (list A) :=
  match keys_of key l with
  | Raise e => Raise e
  | Ok kl => Ok (map snd (sort_keyed kl))
  end.

Definition _sort_stops_by_route (start_geo end_geo : Location)
    (stops : list Location) : result (list Location) :=
  sorted stops (route_position start_geo end_geo).

Definition coord_str (l : Location) : string :=
  frepr (lat l) ++ "," ++ frepr (lng l).

(** [if constraint_locations:] is false for [None] and for the empty list. *)
Definition _find_intermediate_stops (start_geo end_geo : Location)
    (constraint_locations : option (list string))
    (max_stops total_days min_stay : Z) : M (list Location) :=
  let available_days := total_days - 2 * min_stay in
  q <- lift (py_floordiv available_days min_stay) ;;
  let max_possible_stops := Z.min max_stops q in
  if max_possible_stops <=? 0 then ret []
  else
    route_info <- get_directions (coord_str start_geo) (coord_str end_geo) ;;
    let intermediate_stops : list Location := [] in
    intermediate_stops <-
      match constraint_locations with
      | Some (c :: cs) =>
          constraint_stops <-
            _process_constraint_locations (c :: cs) start_geo end_geo
                                          max_possible_stops ;;
          ret (intermediate_stops ++ constraint_stops)%list
      | _ => ret intermediate_stops
      end ;;
    let remaining_stops :=
      max_possible_stops - Z.of_nat (List.length intermediate_stops) in
    intermediate_stops <-
      (if remaining_stops >? 0 then
         route_stops <-
           _find_places_along_route start_geo end_geo remaining_stops ;;
         ret (intermediate_stops ++ route_stops)%list
       else ret intermediate_stops) ;;
    intermediate_stops <-
      lift (_sort_stops_by_route start_geo end_geo intermediate_stops) ;;
    ret (py_slice_to intermediate_stops max_possible_stops).

(** The loop of [_distribute_days]; [n] is [len(locations)], [i] the index
    of the head of [locations]. *)
Fixpoint distribute_loop (n base_days_per_location : Z) (i : Z)
    (locations : list Location) (remaining_days : Z)
    (current_date : datetime) : list ScheduleEntry :=
  match locations with
  | [] => []
  | location :: rest =>
      let days_here := base_days_per_location in
      let '(days_here, remaining_days) :=
        if (remaining_days >? 0) && (i <? n - 1) then
          let extra_days := Z.min remaining_days 1 in
          (days_here + extra_days, remaining_days - extra_days)
        else (days_here, remaining_days) in
      let days_here :=
        if i =? n - 1 then days_here + remaining_days else days_here in
      let end_date_here := add_days current_date days_here in
      let schedule_entry :=
        mkEntry location
                (strftime current_date "%b %d")
                (strftime end_date_here "%b %d")
                days_here
                (get_google_maps_url location) in
      schedule_entry
        :: distribute_loop n base_days_per_location (i + 1) rest
                           remaining_days end_date_here
  end.

Definition _distribute_days (locations : list Location)
    (start_date : datetime) (total_days min_stay : Z) : list ScheduleEntry :=
  let n := Z.of_nat (List.length locations) in
  if n =? 0 then []
  else
    let base_days_per_location := Z.max min_stay (total_days / n) in
    let remaining_days := total_days - base_days_per_location * n in
    distribute_loop n base_days_per_location 0 locations remaining_days
                    start_date.

(** [if directions and "legs" in directions]. *)
Definition has_legs (directions : Route) : bool :=
  match directions with
  | [] => false
  | _ => match dict_lookup "legs" directions with
         | Some _ => true
         | None => false
         end
  end.

(** [directions["legs"]]. *)
Definition route_legs (directions : Route) : result (json F) :=
  match dict_lookup "legs" directions with
  | Some v => Ok v
  | None => Raise (KeyError "legs")
  end.

Definition bind_result {A B} (r : result A) (k : A -> result B) : result B :=
  match r with
  | Ok a => k a
  | Raise e => Raise e
  end.

(** The dict [suggestion] built in the body of the loop. *)
Definition make_suggestion (current_loc next_loc : Location)
    (directions : Route) : result TravelLeg :=
  bind_result (route_legs directions) (fun legs =>
  bind_result (json_first legs) (fun leg =>
  bind_result (json_get leg "distance" (JObj [])) (fun distance =>
  bind_result (json_get distance "text" (JStr "Unknown")) (fun distance_text =>
  bind_result (json_get leg "duration" (JObj [])) (fun duration =>
  bind_result (json_get duration "text" (JStr "Unknown")) (fun duration_text =>
  Ok (mkLeg (formatted_address current_loc)
            (formatted_address next_loc)
            distance_text
            duration_text
            "driving"
            (get_directions_url (formatted_address current_loc)
                                (formatted_address next_loc))))))))).

(** The loop [for i in range(len(locations) - 1)] over the consecutive
    pairs [locations[i]], [locations[i + 1]]. *)
Fixpoint suggestions_loop (locations : list Location)
    (suggestions : list TravelLeg) : M (list TravelLeg) :=
  match locations with
  | current_loc :: ((next_loc :: _) as rest) =>
      directions <- get_directions (coord_str current_loc)
                                   (coord_str next_loc) ;;
      suggestions <-
        (if has_legs directions then
           suggestion <- lift (make_suggestion current_loc next_loc
                                               directions) ;;
           ret (suggestions ++ [suggestion])%list
         else ret suggestions) ;;
      suggestions_loop rest suggestions
  | _ => ret suggestions
  end.

Definition _generate_travel_suggestions (locations : list Location)
  : M (list TravelLeg) :=
  suggestions_loop locations [].

Definition generate_itinerary (start_location end_location : string)
    (start_date end_date : datetime)
    (constraint_locations : option (list string))
    (max_stops min_stay : Z) : M Itinerary :=
  let total_days := delta_days end_date start_date in
  if total_days <? min_stay then
    raise (ValueError ("Trip duration (" ++ str_of_int total_days
                       ++ " days) is less than minimum stay ("
                       ++ str_of_int min_stay ++ " days)"))
  else
    start_geo <- geocode_location start_location ;;
    end_geo <- geocode_location end_location ;;
    log INFO ("Planning route from " ++ geo_formatted_address start_geo
              ++ " to " ++ geo_formatted_address end_geo) ;;;
    intermediate_stops <-
      _find_intermediate_stops (Geocoded start_geo) (Geocoded end_geo)
                               constraint_locations max_stops total_days
                               min_stay ;;
    let all_locations :=
      ([Geocoded start_geo] ++ intermediate_stops ++ [Geocoded end_geo])%list in
    let daily_schedule :=
      _distribute_days all_locations start_date total_days min_stay in
    travel_suggestions <- _generate_travel_suggestions all_locations ;;
    ret (mkItinerary start_location end_location
                     (strftime start_date "%Y-%m-%d")
                     (strftime end_date "%Y-%m-%d")
                     total_days all_locations daily_schedule
                     travel_suggestions).

End Fluctour.

Arguments GeoResult F : clear implicits.
Arguments PlaceResult F : clear implicits.
Arguments Location F : clear implicits.
Arguments Coord F : clear implicits.
Arguments Route F : clear implicits.
Arguments ScheduleEntry F : clear implicits.
Arguments TravelLeg F : clear implicits.
Arguments Itinerary F : clear implicits.
Arguments Event F : clear implicits.
Arguments World F : clear implicits.
Arguments M F A : clear implicits.
Arguments Collaborators F : clear implicits.

(** ** utils.py *)

(** The fields of the parsed arguments that the validation reads. *)
Record Args : Type := mkArgs {
  args_max_stops : Z;
  args_min_stay : Z
}.

Definition validate_itinerary_params (args : Args) : result unit :=
  if args_max_stops args <? 0 then
    Raise (ValueError "max_stops must be non-negative")
  else if args_min_stay args <? 1 then
    Raise (ValueError "min_stay must be at least 1 day")
  else if args_max_stops args >? 10 then
    Raise (ValueError
             "max_stops should not exceed 10 for reasonable performance")
  else Ok tt.

(** ** The real numbers as floats *)

Definition Rltb (a b : R) : bool := if Rlt_dec a b then true else false.
Definition Rleb (a b : R) : bool := if Rle_dec a b then true else false.
Definition Reqb (a b : R) : bool := if Req_dec_T a b then true else false.

#[export] Instance R_PyFloat : PyFloat R := {|
  of_int := IZR;
  f1_5 := (3 / 2)%R;
  fadd := Rplus;
  fsub := Rminus;
  fmul := Rmult;
  fdiv := Rdiv;
  fneg := Ropp;
  fpow2 := fun x => (x * x)%R;
  fltb := Rltb;
  fleb := Rleb;
  feqb := Reqb;
  radians := fun x => (x * PI / 180)%R;
  fsin := sin;
  fcos := cos;
  fasin := asin;
  fsqrt := sqrt;
  frepr := fun _ => "<float>"
|}.

(** ** Sample collaborators and inputs

    A googlemaps client that knows two towns, whose directions answer is
    fixed, and around which no place is found. *)

Definition town {F} `{PyFloat F} (name : string) (la lo : Z) : GeoResult F :=
  mkGeo name (of_int la) (of_int lo) ("id-" ++ name) ["locality"].

Definition sample_geocode {F} `{PyFloat F} (location : string)
  : result (list (GeoResult F)) :=
  if String.eqb location "Amsterdam" then Ok [town "Amsterdam" 52 5]
  else if String.eqb location "Copenhagen" then Ok [town "Copenhagen" 56 13]
  else if String.eqb location "Atlantis" then Ok []
  else Raise (ApiError "REQUEST_DENIED").

Definition sample_client {F} `{PyFloat F}
    (directions : result (list (Route F))) : Collaborators F := {|
  client_geocode := fun _ location => sample_geocode location;
  client_directions := fun _ _ _ => directions;
  search_places := fun _ _ _ => [];
  strftime := fun d _ => str_of_int (toordinal d)
|}.

(** A route whose first leg has both texts. *)
Definition full_route {F} : Route F :=
  [("legs",
    JArr [JObj [("distance", JObj [("text", JStr "785 km")]);
                ("duration", JObj [("text", JStr "8 hours 30 mins")])]])].

(** A route whose first leg has neither distance nor duration. *)
Definition bare_route {F} : Route F := [("legs", JArr [JObj []])].

Definition aug_03 : datetime := mkDatetime 739466 0.
Definition aug_04 : datetime := mkDatetime 739467 0.
Definition aug_10 : datetime := mkDatetime 739473 0.

(** A parser that knows two dates and a time of day. *)
Definition sample_parse_date (s : string) : result datetime :=
  if String.eqb s "2025-08-03" then Ok aug_03
  else if String.eqb s "2025-08-10" then Ok aug_10
  else if String.eqb s "2025-08-03 18:00"
       then Ok (mkDatetime 739466 64800000000)
  else Raise (ValueError ("Unknown string format: " ++ s)).

(** * More of the code *)

(** ** maps_client.py: the directions link with waypoints *)

(** [MapsClient.get_directions_url]; [if waypoints:] is false for [None]
    and for the empty list. *)
Definition get_directions_url_via (origin destination : string)
    (waypoints : option (list string)) : string :=
  let base_url := "https://www.google.com/maps/dir/" in
  let all_points :=
    match waypoints with
    | Some (p :: ps) => ([origin] ++ (p :: ps) ++ [destination])%list
    | _ => [origin; destination]
    end in
  let encoded_points := map replace_space_plus all_points in
  base_url ++ join "/" encoded_points.

(** ** cli.py

    Strings are sequences of ASCII characters. *)

(** [c.isspace()] for an ASCII character: tab, line feed, vertical tab,
    form feed, carriage return, the four separators 28 to 31, space. *)
Definition py_isspace (c : ascii) : bool :=
  let n := nat_of_ascii c in
  ((9 <=? n)%nat && (n <=? 13)%nat)
  || ((28 <=? n)%nat && (n <=? 32)%nat).

(** [s.lstrip()]. *)
Fixpoint lstrip (s : string) : string :=
  match s with
  | EmptyString => EmptyString
  | String c s' => if py_isspace c then lstrip s' else s
  end.

(** [s.rstrip()]. *)
Fixpoint rstrip (s : string) : string :=
  match s with
  | EmptyString => EmptyString
  | String c s' =>
      match rstrip s' with
      | EmptyString => if py_isspace c then EmptyString
                       else String c EmptyString
      | r => String c r
      end
  end.

(** [s.strip()]. *)
Definition strip (s : string) : string := rstrip (lstrip s).

(** [s.split(sep)] for a separator of one character. *)
Fixpoint split_on (sep : ascii) (s : string) : list string :=
  match s with
  | EmptyString => [EmptyString]
  | String c s' =>
      if Ascii.eqb c sep then EmptyString :: split_on sep s'
      else match split_on sep s' with
           | piece :: pieces => String c piece :: pieces
           | [] => [String c EmptyString]
           end
  end.

(** Truth value of a string. *)
Definition nonempty (s : string) : bool :=
  match s with
  | EmptyString => false
  | String _ _ => true
  end.

Definition parse_locations (locations_str : string) : list string :=
  if nonempty locations_str then
    map strip (filter (fun loc => nonempty (strip loc))
                      (split_on ","%char locations_str))
  else [].

(** [a >= b] on datetimes without time zone. *)
Definition datetime_geb (a b : datetime) : bool :=
  (toordinal b <? toordinal a)
  || ((toordinal a =? toordinal b) && (micro_of_day b <=? micro_of_day a)).

(** [validate_dates]; [parse_date] is [dateutil.parser.parse]. *)
Definition validate_dates (parse_date : string -> result datetime)
    (start_date_str end_date_str : string) : result (datetime * datetime) :=
  let body : result (datetime * datetime) :=
    match parse_date start_date_str with
    | Raise e => Raise e
    | Ok start_date =>
        match parse_date end_date_str with
        | Raise e => Raise e
        | Ok end_date =>
            if datetime_geb start_date end_date then
              Raise (ValueError "Start date must be before end date")
            else if delta_days end_date start_date <? 1 then
              Raise (ValueError "Trip must be at least 1 day long")
            else Ok (start_date, end_date)
        end
    end in
  match body with
  | Ok dates => Ok dates
  | Raise e => Raise (ValueError ("Invalid date format: " ++ exn_str e))
  end.

(** ** maps_client.py: the place search

    [search_places_in_area] from the source.  A place of the googlemaps
    answer is given with the keys the code reads, each of which may be
    missing; the answers of the client are given with the place types, in
    the order of the calls. *)

Section PlaceSearch.

Context {F : Type} `{PF : PyFloat F}.

(** [place["geometry"]["location"]] with its two coordinates. *)
Record RawLocation : Type := mkRawLocation {
  raw_lat : option F;
  raw_lng : option F
}.

Record RawPlace : Type := mkRawPlace {
  raw_name : option string;
  raw_place_id : option string;
  raw_geometry : option (option RawLocation); (* geometry, then location *)
  raw_rating : option F;
  raw_types : option (list string);
  raw_vicinity : option string
}.

(** [d[key]] for a key that may be missing. *)
Definition subscript {A : Type} (key : string) (v : option A) : result A :=
  match v with
  | Some a => Ok a
  | None => Raise (KeyError key)
  end.

(** [d.get(key, default)]. *)
Definition get_or {A : Type} (v : option A) (default : A) : A :=
  match v with
  | Some a => a
  | None => default
  end.

(** The dict [place_details]; the entries are evaluated in order, and the
    default of ["formatted_address"] reads [place["name"]]. *)
Definition place_details (place_type : string) (place : RawPlace)
  : result (PlaceResult F) :=
  bind_result (subscript "name" (raw_name place)) (fun name =>
  bind_result (subscript "place_id" (raw_place_id place)) (fun place_id =>
  bind_result (subscript "geometry" (raw_geometry place)) (fun geometry =>
  bind_result (subscript "location" geometry) (fun location =>
  bind_result (subscript "lat" (raw_lat location)) (fun lat =>
  bind_result (subscript "geometry" (raw_geometry place)) (fun geometry' =>
  bind_result (subscript "location" geometry') (fun location' =>
  bind_result (subscript "lng" (raw_lng location')) (fun lng =>
  bind_result (subscript "name" (raw_name place)) (fun name' =>
  Ok (mkPlace name place_id lat lng
              (get_or (raw_rating place) (of_int 0))
              (get_or (raw_types place) [])
              (get_or (raw_vicinity place) "")
              (get_or (raw_vicinity place) name')
              place_type)))))))))).

(** The inner loop: the places appended to [all_places], and the error
    that ended the loop, if any. *)
Fixpoint append_details (place_type : string) (places : list RawPlace)
    (all_places : list (PlaceResult F))
  : list (PlaceResult F) * option exn :=
  match places with
  | [] => (all_places, None)
  | place :: rest =>
      match place_details place_type place with
      | Raise e => (all_places, Some e)
      | Ok details =>
          append_details place_type rest (all_places ++ [details])%list
      end
  end.

(** The answer of [self.client.places_nearby]: it raises, or it is a dict
    that may have a ["results"] list. *)
Definition NearbyAnswer : Type := result (option (list RawPlace)).

(** The outer loop over the place types, each with the answer of the
    client to its call: the places gathered and the warnings logged,
    oldest first. *)
Fixpoint gather_places (calls : list (string * NearbyAnswer))
    (all_places : list (PlaceResult F)) (warnings : list string)
  : list (PlaceResult F) * list string :=
  match calls with
  | [] => (all_places, warnings)
  | (place_type, answer) :: rest =>
      let warning e :=
        "Error searching for " ++ place_type ++ ": " ++ exn_str e in
      match answer with
      | Raise e =>
          gather_places rest all_places (warnings ++ [warning e])%list
      | Ok places =>
          match append_details place_type (firstn 5 (get_or places []))
                               all_places with
          | (all_places, None) => gather_places rest all_places warnings
          | (all_places, Some e) =>
              gather_places rest all_places (warnings ++ [warning e])%list
          end
      end
  end.

(** [unique_places]: the first place of each [place_id], in the order of
    insertion. *)
Fixpoint unique_by_id (seen : list string) (places : list (PlaceResult F))
  : list (PlaceResult F) :=
  match places with
  | [] => []
  | place :: rest =>
      if existsb (String.eqb (place_place_id place)) seen
      then unique_by_id seen rest
      else place :: unique_by_id (place_place_id place :: seen) rest
  end.

(** [sorted(l, key=..., reverse=True)]: descending, stable, comparing keys
    with [<] only. *)
Fixpoint insert_desc {A : Type} (key : A -> F) (x : A) (l : list A)
  : list A :=
  match l with
  | [] => [x]
  | y :: l' =>
      if fltb (key x) (key y) then y :: insert_desc key x l'
      else x :: y :: l'
  end.

Fixpoint sorted_desc {A : Type} (key : A -> F) (l : list A) : list A :=
  match l with
  | [] => []
  | x :: l' => insert_desc key x (sorted_desc key l')
  end.

(** [a] is not rated below [b]. *)
Definition not_below {A : Type} (key : A -> F) (a b : A) : Prop :=
  fltb (key a) (key b) = false.

(** The default [place_types]. *)
Definition default_place_types : list string :=
  ["tourist_attraction"; "museum"; "park"; "point_of_interest"].

(** [search_places_in_area], given the place types with the answers of the
    client: the list returned and the warnings logged. *)
Definition search_places_in_area_from
    (calls : list (string * NearbyAnswer))
  : list (PlaceResult F) * list string :=
  let '(all_places, warnings) := gather_places calls [] [] in
  (sorted_desc place_rating (unique_by_id [] all_places), warnings).

End PlaceSearch.

Arguments RawLocation F : clear implicits.
Arguments RawPlace F : clear implicits.
Arguments NearbyAnswer F : clear implicits.

(** ** Sample answers of the place search *)

Definition raw_place {F} `{PyFloat F} (name : string) (rating : Z)
  : RawPlace F :=
  mkRawPlace (Some name) (Some ("id-" ++ name))
             (Some (Some (mkRawLocation (Some (of_int 53))
                                        (Some (of_int 9)))))
             (Some (of_int rating)) None (Some "Hamburg").

(** A place without a name. *)
Definition nameless_place {F} `{PyFloat F} : RawPlace F :=
  mkRawPlace None (Some "id-nameless") None None None None.

(** * Vocabulary of the properties *)

Section Vocabulary.

Context {F : Type} `{PF : PyFloat F} {C : Collaborators F}.

(** [sum(entry.days for entry in schedule)]. *)
Definition total_of (schedule : list (ScheduleEntry F)) : Z :=
  fold_right Z.add 0 (map entry_days schedule).

(** [max_possible_stops] of [_find_intermediate_stops], for a non-zero
    [min_stay]. *)
Definition capacity (max_stops total_days min_stay : Z) : Z :=
  Z.min max_stops ((total_days - 2 * min_stay) / min_stay).

(** The constraint stage of [_find_intermediate_stops]. *)
Definition constraint_stage (start_geo end_geo : Location F)
    (constraint_locations : option (list string)) (max_possible_stops : Z)
  : M F (list (Location F)) :=
  match constraint_locations with
  | Some (c :: cs) =>
      _process_constraint_locations (c :: cs) start_geo end_geo
                                    max_possible_stops
  | _ => ret []
  end.

(** The gap-filling stage. *)
Definition gap_stage (start_geo end_geo : Location F)
    (remaining_stops : Z) : M F (list (Location F)) :=
  if remaining_stops >? 0
  then _find_places_along_route start_geo end_geo remaining_stops
  else ret [].

(** The route [get_directions] returns for an answer of the client. *)
Definition first_route (result : list (Route F)) : Route F :=
  match result with
  | r :: _ => r
  | [] => []
  end.

(** A directions lookup that was answered. *)
Definition is_lookup (ev : Event F) : bool :=
  match ev with
  | EDirections _ _ (Ok _) => true
  | _ => false
  end.

(** A directions lookup answered with a route that has a "legs" entry. *)
Definition answered_with_legs (ev : Event F) : bool :=
  match ev with
  | EDirections _ _ (Ok result) => has_legs (first_route result)
  | _ => false
  end.

(** The leg dict has no text for [field]: the key is absent, or its value
    is a dict without "text". *)
Definition missing_text (leg : list (string * json F)) (field : string)
  : Prop :=
  dict_lookup field leg = None
  \/ exists d, dict_lookup field leg = Some (JObj d)
               /\ dict_lookup "text" d = None.

(** [leg.get(field, {}).get("text", "Unknown")]. *)
Definition leg_text (leg : list (string * json F)) (field : string)
  : result (json F) :=
  bind_result (json_get (JObj leg) field (JObj []))
              (fun v => json_get v "text" (JStr "Unknown")).

(** The warning of the [except] clause of [_process_constraint_locations]. *)
Definition constraint_warning (location : string) (e : exn) : Event F :=
  ELog WARNING ("Could not process constraint location '"
                ++ location ++ "': " ++ exn_str e).

(** A constraint was geocoded to [g] in the events [new]. *)
Definition geocoded_by (new : World F) (g : GeoResult F) : Prop :=
  exists location rest, In (EGeocode location (Ok (g :: rest))) new.

(** A location found by the place search. *)
Definition is_place (x : Location F) : bool :=
  match x with
  | Place _ => true
  | Geocoded _ => false
  end.

(** A call of the place search. *)
Definition is_search (ev : Event F) : bool :=
  match ev with
  | ESearch _ _ _ => true
  | _ => false
  end.

(** The position of a stop in the words of the specification:
    [distance(start, stop) / distance(start, end)], and zero when
    [distance(start, end) == 0]. *)
Definition position (start_geo end_geo stop : Location F) : F :=
  if feqb (_calculate_distance start_geo end_geo) (of_int 0)
  then of_int 0
  else fdiv (_calculate_distance start_geo stop)
            (_calculate_distance start_geo end_geo).

(** The sort of [sorted], on the elements themselves. *)
Fixpoint insert_by {A : Type} (f : A -> F) (x : A) (l : list A) : list A :=
  match l with
  | [] => [x]
  | y :: l' =>
      if fltb (f y) (f x) then y :: insert_by f x l' else x :: y :: l'
  end.

Fixpoint sort_by {A : Type} (f : A -> F) (l : list A) : list A :=
  match l with
  | [] => []
  | x :: l' => insert_by f x (sort_by f l')
  end.

(** [a] does not come after [b]: [not (f b < f a)]. *)
Definition ascending {A : Type} (f : A -> F) (a b : A) : Prop :=
  fltb (f b) (f a) = false.

End Vocabulary.

(** * Vocabulary of the further properties *)

Section MoreVocabulary.

Context {F : Type} `{PF : PyFloat F} {C : Collaborators F}.

(** The point at [ratio] of the way from [start_geo] to [end_geo], as
    [_find_places_along_route] interpolates it. *)
Definition interpolate (start_geo end_geo : Location F) (ratio : F)
  : Coord F :=
  mkCoord (fadd (lat start_geo)
                (fmul (fsub (lat end_geo) (lat start_geo)) ratio))
          (fadd (lng start_geo)
                (fmul (fsub (lng end_geo) (lng start_geo)) ratio)).

(** The points of the place searches of a trace, newest first. *)
Fixpoint search_points (new : World F) : list (Coord F) :=
  match new with
  | [] => []
  | ESearch c _ _ :: rest => c :: search_points rest
  | _ :: rest => search_points rest
  end.

(** The strings sent to the geocoder in a trace, newest first. *)
Fixpoint geocode_requests (new : World F) : list string :=
  match new with
  | [] => []
  | EGeocode location _ :: rest => location :: geocode_requests rest
  | _ :: rest => geocode_requests rest
  end.

(** The consecutive pairs [(l[i], l[i + 1])] of a list. *)
Definition consecutive_pairs {A : Type} (l : list A) : list (A * A) :=
  combine l (tl l).

(** [l1] is [l2] with some elements left out, the order kept. *)
Inductive subsequence {A : Type} : list A -> list A -> Prop :=
| subsequence_nil : subsequence [] []
| subsequence_skip (x : A) (l1 l2 : list A) :
    subsequence l1 l2 -> subsequence l1 (x :: l2)
| subsequence_keep (x : A) (l1 l2 : list A) :
    subsequence l1 l2 -> subsequence (x :: l1) (x :: l2).

(** The leg is the driving leg from [a] to [b]. *)
Definition leg_joins (leg : TravelLeg F) (a b : Location F) : Prop :=
  leg_from leg = formatted_address a
  /\ leg_to leg = formatted_address b
  /\ leg_mode leg = "driving"
  /\ leg_directions_url leg
     = get_directions_url (formatted_address a) (formatted_address b).

(** A JSON value that is a dict. *)
Definition is_dict (v : json F) : bool :=
  match v with
  | JObj _ => true
  | _ => false
  end.

End MoreVocabulary.

(** * Properties *)

Section Properties.

Context {F : Type} `{PF : PyFloat F} {C : Collaborators F}.

Notation "x <- m ;; k" := (bind m (fun x => k))
  (at level 61, m at next level, right associativity).

(** ** The monad *)

Lemma bind_ok {A B} (m : M F A) (k : A -> M F B) (w w' : World F) (b : B) :
  bind m k w = (Ok b, w') ->
  exists a w1, m w = (Ok a, w1) /\ k a w1 = (Ok b, w').
Proof.
  unfold bind. destruct (m w) as [[a|e] w1]; intros E.
  - exists a, w1. split; [reflexivity | exact E].
  - discriminate E.
Qed.

Lemma bind_cong {A B} (m : M F A) (k k' : A -> M F B) (w : World F) :
  (forall a w1, k a w1 = k' a w1) -> bind m k w = bind m k' w.
Proof.
  intros E. unfold bind. destruct (m w) as [[a|e] w1]; [apply E|reflexivity].
Qed.

Lemma bind_ret_l {A B} (a : A) (k : A -> M F B) (w : World F) :
  bind (ret a) k w = k a w.
Proof. reflexivity. Qed.

Lemma bind_assoc {A B D} (m : M F A) (f : A -> M F B) (g : B -> M F D)
    (w : World F) :
  bind (bind m f) g w = bind m (fun x => bind (f x) g) w.
Proof.
  unfold bind. destruct (m w) as [[a|e] w1]; reflexivity.
Qed.

Lemma lift_ok {A} (r : result A) (w w' : World F) (a : A) :
  lift r w = (Ok a, w') -> r = Ok a /\ w' = w.
Proof. unfold lift. intros E. inversion E. split; reflexivity. Qed.

Lemma ret_ok {A} (x a : A) (w w' : World F) :
  ret x w = (Ok a, w') -> a = x /\ w' = w.
Proof. unfold ret. intros E. inversion E. split; reflexivity. Qed.

(** ** Day allocation *)

Lemma distribute_loop_length (n base : Z) (locations : list (Location F)) :
  forall i remaining current_date,
    List.length (distribute_loop n base i locations remaining current_date)
    = List.length locations.
Proof.
  induction locations as [|x rest IH]; intros i remaining d; simpl.
  - reflexivity.
  - destruct ((remaining >? 0) && (i <? n - 1)); simpl; rewrite IH;
      reflexivity.
Qed.

Lemma distribute_loop_total (n base : Z) (locations : list (Location F)) :
  forall i remaining current_date,
    locations <> [] ->
    i + Z.of_nat (List.length locations) = n ->
    total_of (distribute_loop n base i locations remaining current_date)
    = base * Z.of_nat (List.length locations) + remaining.
Proof.
  unfold total_of.
  induction locations as [|x rest IH]; intros i remaining d Hne Hlen.
  - contradiction.
  - assert (Hcase : rest = [] \/ rest <> []).
    { destruct rest; [left; reflexivity | right; discriminate]. }
    destruct Hcase as [-> | Hrest].
    + (* the last location takes what is left *)
      simpl in Hlen. simpl.
      replace (i <? n - 1) with false by (symmetry; apply Z.ltb_ge; lia).
      rewrite andb_false_r.
      replace (i =? n - 1) with true by (symmetry; apply Z.eqb_eq; lia).
      simpl. lia.
    + assert (Hpos : 0 < Z.of_nat (List.length rest)).
      { destruct rest; [contradiction | simpl; lia]. }
      change (List.length (x :: rest)) with (S (List.length rest)) in *.
      rewrite Nat2Z.inj_succ in *.
      cbn [distribute_loop].
      replace (i <? n - 1) with true by (symmetry; apply Z.ltb_lt; lia).
      replace (i =? n - 1) with false by (symmetry; apply Z.eqb_neq; lia).
      rewrite andb_true_r.
      destruct (remaining >? 0) eqn:Hrem.
      * apply Z.gtb_lt in Hrem.
        replace (Z.min remaining 1) with 1 by lia.
        cbn [map fold_right entry_days].
        rewrite IH by (auto; lia). lia.
      * cbn [map fold_right entry_days].
        rewrite IH by (auto; lia). lia.
Qed.

Lemma _distribute_days_total (locations : list (Location F))
    (start_date : datetime) (total_days min_stay : Z) :
  locations <> [] ->
  total_of (_distribute_days locations start_date total_days min_stay)
  = total_days.
Proof.
  intros Hne. unfold _distribute_days.
  destruct (Z.of_nat (List.length locations) =? 0) eqn:Hn.
  - apply Z.eqb_eq in Hn. destruct locations; [contradiction|].
    simpl in Hn. lia.
  - rewrite distribute_loop_total by (auto; lia). lia.
Qed.

Lemma _distribute_days_length (locations : list (Location F))
    (start_date : datetime) (total_days min_stay : Z) :
  List.length (_distribute_days locations start_date total_days min_stay)
  = List.length locations.
Proof.
  unfold _distribute_days.
  destruct (Z.of_nat (List.length locations) =? 0) eqn:Hn.
  - apply Z.eqb_eq in Hn. destruct locations; [reflexivity|].
    simpl in Hn. lia.
  - apply distribute_loop_length.
Qed.

(** ** What a returned itinerary is made of *)

Lemma generate_itinerary_ok (start_location end_location : string)
    (start_date end_date : datetime)
    (constraint_locations : option (list string)) (max_stops min_stay : Z)
    (w w' : World F) (it : Itinerary F) :
  generate_itinerary start_location end_location start_date end_date
                     constraint_locations max_stops min_stay w
  = (Ok it, w') ->
  let total_days := delta_days end_date start_date in
  exists start_geo end_geo stops w1 w2,
    min_stay <= total_days
    /\ _find_intermediate_stops (Geocoded start_geo) (Geocoded end_geo)
         constraint_locations max_stops total_days min_stay w1
       = (Ok stops, w2)
    /\ it_locations it
       = (Geocoded start_geo :: stops ++ [Geocoded end_geo])%list
    /\ it_total_days it = total_days
    /\ it_daily_schedule it
       = _distribute_days (it_locations it) start_date total_days min_stay
    /\ _generate_travel_suggestions (it_locations it) w2
       = (Ok (it_travel_suggestions it), w').
Proof.
  intros E total_days. unfold generate_itinerary in E.
  fold total_days in E.
  destruct (total_days <? min_stay) eqn:Hlt; [discriminate E|].
  apply Z.ltb_ge in Hlt.
  apply bind_ok in E. destruct E as (start_geo & wa & _ & E).
  apply bind_ok in E. destruct E as (end_geo & wb & _ & E).
  apply bind_ok in E. destruct E as (u & wc & _ & E).
  apply bind_ok in E. destruct E as (stops & w2 & Hstops & E).
  apply bind_ok in E. destruct E as (legs & w3 & Hlegs & E).
  apply ret_ok in E. destruct E as [-> ->].
  exists start_geo, end_geo, stops, wc, w2. simpl.
  repeat split; auto.
Qed.

(** C1. Whenever [generate_itinerary] returns an itinerary, the day counts
    of its schedule add up exactly to [total_days], the number of days from
    [start_date] to [end_date]; this holds in particular for every valid
    invocation ([min_stay >= 1], [total_days >= min_stay]). *)
Theorem schedule_days_sum_to_total_days
    (start_location end_location : string) (start_date end_date : datetime)
    (constraint_locations : option (list string)) (max_stops min_stay : Z)
    (w w' : World F) (it : Itinerary F) :
  generate_itinerary start_location end_location start_date end_date
                     constraint_locations max_stops min_stay w
  = (Ok it, w') ->
  total_of (it_daily_schedule it) = delta_days end_date start_date
  /\ it_total_days it = delta_days end_date start_date.
Proof.
  intros E. apply generate_itinerary_ok in E.
  destruct E as (sg & eg & stops & w1 & w2 & _ & _ & Hloc & Htot & Hsch & _).
  split; [|exact Htot].
  rewrite Hsch. apply _distribute_days_total.
  rewrite Hloc. discriminate.
Qed.

Lemma distribute_loop_days_ge (n base : Z) (locations : list (Location F)) :
  forall i remaining current_date,
    0 <= remaining ->
    Forall (fun entry => base <= entry_days entry)
           (distribute_loop n base i locations remaining current_date).
Proof.
  induction locations as [|x rest IH]; intros i remaining d Hrem.
  - constructor.
  - cbn [distribute_loop].
    destruct ((remaining >? 0) && (i <? n - 1)) eqn:Hextra.
    + apply andb_true_iff in Hextra. destruct Hextra as [Hpos _].
      apply Z.gtb_lt in Hpos.
      replace (Z.min remaining 1) with 1 by lia.
      constructor.
      * cbn [entry_days]. destruct (i =? n - 1); lia.
      * apply IH. lia.
    + constructor.
      * cbn [entry_days]. destruct (i =? n - 1); lia.
      * apply IH. exact Hrem.
Qed.

(** ** Stop selection *)

Lemma _find_intermediate_stops_stages (start_geo end_geo : Location F)
    (constraint_locations : option (list string))
    (max_stops total_days min_stay : Z) (w : World F) :
  min_stay <> 0 ->
  0 < capacity max_stops total_days min_stay ->
  _find_intermediate_stops start_geo end_geo constraint_locations
                           max_stops total_days min_stay w
  = (let cap := capacity max_stops total_days min_stay in
     route_info <- get_directions (coord_str start_geo)
                                  (coord_str end_geo) ;;
     constraint_stops <- constraint_stage start_geo end_geo
                                          constraint_locations cap ;;
     route_stops <- gap_stage start_geo end_geo
                      (cap - Z.of_nat (List.length constraint_stops)) ;;
     ordered <- lift (_sort_stops_by_route start_geo end_geo
                        (constraint_stops ++ route_stops)) ;;
     ret (py_slice_to ordered cap)) w.
Proof.
  intros Hm Hcap. unfold _find_intermediate_stops, py_floordiv, capacity in *.
  destruct (min_stay =? 0) eqn:E0; [apply Z.eqb_eq in E0; contradiction|].
  change (lift (Ok ((total_days - 2 * min_stay) / min_stay)))
    with (ret (A := Z) (F := F) ((total_days - 2 * min_stay) / min_stay)).
  rewrite bind_ret_l. cbv zeta.
  destruct (Z.min max_stops ((total_days - 2 * min_stay) / min_stay) <=? 0)
    eqn:Ecap; [apply Z.leb_le in Ecap; lia|].
  apply bind_cong. intros route_info w1.
  assert (Hstage :
    forall (k : list (Location F) -> M F (list (Location F))),
      bind (match constraint_locations with
            | Some (c :: cs) =>
                constraint_stops <-
                  _process_constraint_locations
                    (c :: cs) start_geo end_geo
                    (Z.min max_stops
                           ((total_days - 2 * min_stay) / min_stay)) ;;
                ret ([] ++ constraint_stops)%list
            | _ => ret []
            end) k w1
      = bind (constraint_stage start_geo end_geo constraint_locations
                (Z.min max_stops ((total_days - 2 * min_stay) / min_stay)))
             k w1).
  { intros k. unfold constraint_stage.
    destruct constraint_locations as [[|c cs]|]; try reflexivity.
    rewrite bind_assoc. apply bind_cong. intros a w2. reflexivity. }
  rewrite Hstage. apply bind_cong. intros constraint_stops w2.
  unfold gap_stage.
  destruct (_ >? 0).
  - rewrite bind_assoc. apply bind_cong. intros rs w3. reflexivity.
  - rewrite !bind_ret_l. rewrite app_nil_r. reflexivity.
Qed.

Lemma _find_intermediate_stops_no_capacity (start_geo end_geo : Location F)
    (constraint_locations : option (list string))
    (max_stops total_days min_stay : Z) (w : World F) :
  min_stay <> 0 ->
  capacity max_stops total_days min_stay <= 0 ->
  _find_intermediate_stops start_geo end_geo constraint_locations
                           max_stops total_days min_stay w
  = (Ok [], w).
Proof.
  intros Hm Hcap. unfold _find_intermediate_stops, py_floordiv, capacity in *.
  destruct (min_stay =? 0) eqn:E0; [apply Z.eqb_eq in E0; contradiction|].
  change (lift (Ok ((total_days - 2 * min_stay) / min_stay)))
    with (ret (A := Z) (F := F) ((total_days - 2 * min_stay) / min_stay)).
  rewrite bind_ret_l. cbv zeta.
  apply Z.leb_le in Hcap. rewrite Hcap. reflexivity.
Qed.

Lemma py_slice_to_length {A} (l : list A) (n : Z) :
  0 <= n -> Z.of_nat (List.length (py_slice_to l n)) <= n.
Proof.
  intros Hn. unfold py_slice_to.
  replace (n <? 0) with false by (symmetry; apply Z.ltb_ge; exact Hn).
  rewrite length_firstn. lia.
Qed.

Lemma _find_intermediate_stops_length (start_geo end_geo : Location F)
    (constraint_locations : option (list string))
    (max_stops total_days min_stay : Z) (w w' : World F)
    (stops : list (Location F)) :
  _find_intermediate_stops start_geo end_geo constraint_locations
                           max_stops total_days min_stay w
  = (Ok stops, w') ->
  min_stay <> 0
  /\ Z.of_nat (List.length stops)
     <= Z.max 0 (capacity max_stops total_days min_stay).
Proof.
  intros E.
  assert (Hm : min_stay <> 0).
  { intros ->. unfold _find_intermediate_stops, py_floordiv in E.
    simpl in E. discriminate E. }
  split; [exact Hm|].
  destruct (Z_le_gt_dec (capacity max_stops total_days min_stay) 0)
    as [Hle|Hgt].
  - rewrite _find_intermediate_stops_no_capacity in E by assumption.
    inversion E. simpl. lia.
  - rewrite _find_intermediate_stops_stages in E by (auto; lia).
    cbv zeta in E.
    apply bind_ok in E. destruct E as (route_info & w1 & _ & E).
    apply bind_ok in E. destruct E as (cs & w2 & _ & E).
    apply bind_ok in E. destruct E as (rs & w3 & _ & E).
    apply bind_ok in E. destruct E as (ordered & w4 & _ & E).
    apply ret_ok in E. destruct E as [-> _].
    pose proof (py_slice_to_length ordered
                  (capacity max_stops total_days min_stay)). lia.
Qed.


(** ** Travel legs *)

Lemma get_directions_eq (origin destination : string) (w : World F) :
  get_directions origin destination w
  = match client_directions w origin destination with
    | Ok result =>
        (Ok (first_route result),
         EDirections origin destination (Ok result) :: w)
    | Raise e =>
        (Raise e,
         ELog ERROR ("Error getting directions: " ++ exn_str e)
           :: EDirections origin destination (Raise e) :: w)
    end.
Proof.
  unfold get_directions, try_except, bind, call_directions.
  destruct (client_directions w origin destination); reflexivity.
Qed.

Lemma suggestions_loop_step (current_loc next_loc : Location F)
    (rest : list (Location F)) (suggestions : list (TravelLeg F))
    (w : World F) :
  let origin := coord_str current_loc in
  let destination := coord_str next_loc in
  suggestions_loop (current_loc :: next_loc :: rest) suggestions w
  = match client_directions w origin destination with
    | Raise e =>
        (Raise e,
         ELog ERROR ("Error getting directions: " ++ exn_str e)
           :: EDirections origin destination (Raise e) :: w)
    | Ok result =>
        let w1 := EDirections origin destination (Ok result) :: w in
        if has_legs (first_route result) then
          match make_suggestion current_loc next_loc (first_route result) with
          | Ok suggestion =>
              suggestions_loop (next_loc :: rest)
                               (suggestions ++ [suggestion])%list w1
          | Raise e => (Raise e, w1)
          end
        else suggestions_loop (next_loc :: rest) suggestions w1
    end.
Proof.
  intros origin destination.
  cbn [suggestions_loop]. fold origin destination.
  unfold bind at 1. rewrite get_directions_eq.
  destruct (client_directions w origin destination) as [result|e];
    [|reflexivity].
  cbv zeta. destruct (has_legs (first_route result)).
  - rewrite bind_assoc. unfold bind at 1, lift.
    destruct (make_suggestion current_loc next_loc (first_route result));
      reflexivity.
  - reflexivity.
Qed.

Lemma suggestions_loop_count (locations : list (Location F)) :
  forall (suggestions legs : list (TravelLeg F)) (w w' : World F),
    suggestions_loop locations suggestions w = (Ok legs, w') ->
    exists new,
      w' = (new ++ w)%list
      /\ forallb is_lookup new = true
      /\ List.length new = (List.length locations - 1)%nat
      /\ List.length legs
         = (List.length suggestions
            + List.length (filter answered_with_legs new))%nat.
Proof.
  induction locations as [|a rest IH]; intros acc legs w w' E.
  - apply ret_ok in E. destruct E as [-> ->].
    exists []. simpl. repeat split; lia.
  - destruct rest as [|b rest'].
    + apply ret_ok in E. destruct E as [-> ->].
      exists []. simpl. repeat split; lia.
    + rewrite suggestions_loop_step in E. cbv zeta in E.
      destruct (client_directions w (coord_str a) (coord_str b))
        as [result|e] eqn:Hd; [|discriminate E].
      destruct (has_legs (first_route result)) eqn:Hl.
      * destruct (make_suggestion a b (first_route result)) as [s|e];
          [|discriminate E].
        apply IH in E. destruct E as (new & -> & Hall & Hlen & Hlegs).
        exists (new ++ [EDirections (coord_str a) (coord_str b) (Ok result)])%list.
        rewrite <- app_assoc. split; [reflexivity|].
        rewrite forallb_app, filter_app, !length_app, Hall in *.
        cbn [filter answered_with_legs forallb is_lookup List.length] in *.
        rewrite Hl. cbn [List.length] in *.
        repeat split; lia.
      * apply IH in E. destruct E as (new & -> & Hall & Hlen & Hlegs).
        exists (new ++ [EDirections (coord_str a) (coord_str b) (Ok result)])%list.
        rewrite <- app_assoc. split; [reflexivity|].
        rewrite forallb_app, filter_app, !length_app, Hall in *.
        cbn [filter answered_with_legs forallb is_lookup List.length] in *.
        rewrite Hl. cbn [List.length] in *.
        repeat split; lia.
Qed.

Lemma filter_length_le_all {A} (f : A -> bool) (l : list A) :
  (List.length (filter f l) <= List.length l)%nat.
Proof.
  induction l as [|x l IH]; simpl; [lia|].
  destruct (f x); simpl; lia.
Qed.

Lemma filter_all {A} (f : A -> bool) (l : list A) :
  forallb f l = true -> filter f l = l.
Proof.
  induction l as [|x l IH]; simpl; [reflexivity|].
  intros H. apply andb_true_iff in H. destruct H as [Hx Hl].
  rewrite Hx, IH by exact Hl. reflexivity.
Qed.

(** C3, as the code has it. For every itinerary that [generate_itinerary]
    returns, the assembler made one directions lookup per consecutive pair
    of locations, all of them answered, and the number of travel legs is
    the number of those lookups whose answer is a non-empty route with a
    "legs" entry.  So there are at most [len(locations) - 1] legs, and
    exactly that many when every lookup was answered with such a route. *)
Theorem travel_legs_count
    (start_location end_location : string) (start_date end_date : datetime)
    (constraint_locations : option (list string)) (max_stops min_stay : Z)
    (w w' : World F) (it : Itinerary F) :
  generate_itinerary start_location end_location start_date end_date
                     constraint_locations max_stops min_stay w
  = (Ok it, w') ->
  exists new w2,
    _generate_travel_suggestions (it_locations it) w2
    = (Ok (it_travel_suggestions it), w')
    /\ w' = (new ++ w2)%list
    /\ forallb is_lookup new = true
    /\ List.length new = (List.length (it_locations it) - 1)%nat
    /\ List.length (it_travel_suggestions it)
       = List.length (filter answered_with_legs new)
    /\ (List.length (it_travel_suggestions it)
        <= List.length (it_locations it) - 1)%nat
    /\ (forallb answered_with_legs new = true ->
        List.length (it_travel_suggestions it)
        = (List.length (it_locations it) - 1)%nat).
Proof.
  intros E. apply generate_itinerary_ok in E.
  destruct E as (sg & eg & stops & w1 & w2 & _ & _ & _ & _ & _ & Hlegs).
  pose proof Hlegs as Hrun.
  apply suggestions_loop_count in Hlegs.
  destruct Hlegs as (new & Hw & Hall & Hlen & Hcount).
  exists new, w2. simpl in Hcount.
  repeat split; try assumption.
  - pose proof (filter_length_le_all answered_with_legs new). lia.
  - intros Hlegs. rewrite Hcount, filter_all by exact Hlegs. exact Hlen.
Qed.

Lemma missing_text_unknown (leg : list (string * json F)) (field : string) :
  missing_text leg field ->
  leg_text leg field = Ok (JStr "Unknown").
Proof.
  intros [Hnone | (d & Hd & Ht)]; unfold leg_text, json_get; simpl.
  - rewrite Hnone. reflexivity.
  - rewrite Hd. simpl. rewrite Ht. reflexivity.
Qed.

Lemma make_suggestion_eq (current_loc next_loc : Location F)
    (directions : Route F) (legs : json F) (leg : list (string * json F)) :
  route_legs directions = Ok legs ->
  json_first legs = Ok (JObj leg) ->
  make_suggestion current_loc next_loc directions
  = bind_result (leg_text leg "distance")
      (fun distance_text =>
         bind_result (leg_text leg "duration")
           (fun duration_text =>
              Ok (mkLeg (formatted_address current_loc)
                        (formatted_address next_loc)
                        distance_text duration_text "driving"
                        (get_directions_url
                           (formatted_address current_loc)
                           (formatted_address next_loc))))).
Proof.
  intros Hlegs Hleg. unfold make_suggestion, leg_text.
  rewrite Hlegs. simpl. rewrite Hleg. simpl.
  destruct (match dict_lookup "distance" leg with
            | Some x => Ok x | None => Ok (JObj [])
            end) as [v|e]; simpl; [|reflexivity].
  destruct (json_get v "text" (JStr "Unknown")) as [t|e]; simpl;
    [|reflexivity].
  destruct (match dict_lookup "duration" leg with
            | Some x => Ok x | None => Ok (JObj [])
            end) as [v'|e]; simpl; [|reflexivity].
  destruct (json_get v' "text" (JStr "Unknown")); reflexivity.
Qed.

(** C4, as the code has it.  In [_generate_travel_suggestions] (the loop
    started with no suggestion), for the pair of locations at hand:
    - when the first leg of the answer lacks the distance or duration text,
      that text is "Unknown", and when it lacks both the leg is built;
    - when the answer is empty or has no "legs" entry, the pair gets no
      leg and the loop goes on with the next pair;
    - when the directions call raises, the error is logged and raised
      again: the assembly stops with that error. *)
Theorem directions_failures_in_assembly :
  (forall (current_loc next_loc : Location F) (directions : Route F)
          (legs : json F) (leg : list (string * json F)),
      route_legs directions = Ok legs ->
      json_first legs = Ok (JObj leg) ->
      (forall suggestion,
          make_suggestion current_loc next_loc directions = Ok suggestion ->
          (missing_text leg "distance" ->
           leg_distance suggestion = JStr "Unknown")
          /\ (missing_text leg "duration" ->
              leg_duration suggestion = JStr "Unknown"))
      /\ (missing_text leg "distance" ->
          missing_text leg "duration" ->
          exists suggestion,
            make_suggestion current_loc next_loc directions = Ok suggestion
            /\ leg_distance suggestion = JStr "Unknown"
            /\ leg_duration suggestion = JStr "Unknown"))
  /\ (forall (current_loc next_loc : Location F)
             (rest : list (Location F)) (suggestions : list (TravelLeg F))
             (w : World F) (result : list (Route F)),
         client_directions w (coord_str current_loc) (coord_str next_loc)
         = Ok result ->
         has_legs (first_route result) = false ->
         suggestions_loop (current_loc :: next_loc :: rest) suggestions w
         = suggestions_loop (next_loc :: rest) suggestions
             (EDirections (coord_str current_loc) (coord_str next_loc)
                          (Ok result) :: w))
  /\ (forall (current_loc next_loc : Location F)
             (rest : list (Location F)) (suggestions : list (TravelLeg F))
             (w : World F) (e : exn),
         client_directions w (coord_str current_loc) (coord_str next_loc)
         = Raise e ->
         suggestions_loop (current_loc :: next_loc :: rest) suggestions w
         = (Raise e,
            ELog ERROR ("Error getting directions: " ++ exn_str e)
              :: EDirections (coord_str current_loc) (coord_str next_loc)
                             (Raise e) :: w)).
Proof.
  split; [|split].
  - intros cur next directions legs leg Hlegs Hleg. split.
    + intros s Hs.
      rewrite (make_suggestion_eq cur next directions legs leg Hlegs Hleg)
        in Hs.
      split; intros Hmiss; rewrite (missing_text_unknown _ _ Hmiss) in Hs.
      * simpl in Hs.
        destruct (leg_text leg "duration"); simpl in Hs; [|discriminate Hs].
        inversion Hs. reflexivity.
      * destruct (leg_text leg "distance"); simpl in Hs; [|discriminate Hs].
        inversion Hs. reflexivity.
    + intros Hd Hu.
      rewrite (make_suggestion_eq cur next directions legs leg Hlegs Hleg).
      rewrite (missing_text_unknown _ _ Hd), (missing_text_unknown _ _ Hu).
      simpl. eexists. repeat split.
  - intros cur next rest acc w result Hr Hl.
    rewrite suggestions_loop_step. cbv zeta. rewrite Hr, Hl. reflexivity.
  - intros cur next rest acc w e Hr.
    rewrite suggestions_loop_step. cbv zeta. rewrite Hr. reflexivity.
Qed.

(** ** Validation *)

Lemma validate_itinerary_params_ok (args : Args) :
  validate_itinerary_params args = Ok tt
  <-> 0 <= args_max_stops args <= 10 /\ 1 <= args_min_stay args.
Proof.
  unfold validate_itinerary_params.
  destruct (args_max_stops args <? 0) eqn:E1;
    [apply Z.ltb_lt in E1 | apply Z.ltb_ge in E1].
  { split; [discriminate | lia]. }
  destruct (args_min_stay args <? 1) eqn:E2;
    [apply Z.ltb_lt in E2 | apply Z.ltb_ge in E2].
  { split; [discriminate | lia]. }
  rewrite Z.gtb_ltb.
  destruct (10 <? args_max_stops args) eqn:E3;
    [apply Z.ltb_lt in E3 | apply Z.ltb_ge in E3].
  - split; [discriminate | lia].
  - split; [lia | reflexivity].
Qed.


(** ** Distances *)

Context {L : PyFloatLaws F}.

Lemma _calculate_distance_sym (a b : Location F) :
  _calculate_distance a b = _calculate_distance b a.
Proof.
  unfold _calculate_distance. cbv zeta.
  rewrite (fsub_anti (radians (lat b)) (radians (lat a))).
  rewrite (fsub_anti (radians (lng b)) (radians (lng a))).
  rewrite !fdiv_neg_2, !fsin_odd, !fpow2_neg.
  rewrite (fmul_comm (fcos (radians (lat a))) (fcos (radians (lat b)))).
  reflexivity.
Qed.

Lemma _calculate_distance_self (a : Location F) :
  _calculate_distance a a = of_int 0.
Proof.
  unfold _calculate_distance. cbv zeta.
  rewrite !fsub_diag, fdiv_0_2, fsin_0, fpow2_0, fmul_0_r, fadd_0_0.
  rewrite fsqrt_0, fasin_0, fmul_0_r.
  rewrite fmul_comm. apply fmul_0_r.
Qed.

(** C10. The haversine distance is symmetric, and the distance from a
    point to itself is zero; both as values and under Python's [==]. *)
Theorem haversine_symmetric_and_zero_on_diagonal :
  (forall a b : Location F,
      _calculate_distance a b = _calculate_distance b a
      /\ feqb (_calculate_distance a b) (_calculate_distance b a) = true)
  /\ (forall a : Location F,
         _calculate_distance a a = of_int 0
         /\ feqb (_calculate_distance a a) (of_int 0) = true).
Proof.
  split.
  - intros a b. split; [apply _calculate_distance_sym|].
    apply feqb_eq, _calculate_distance_sym.
  - intros a. split; [apply _calculate_distance_self|].
    apply feqb_eq, _calculate_distance_self.
Qed.

(** ** Constraint resolution *)

Lemma geocode_location_eq (location : string) (w : World F) :
  geocode_location location w
  = match client_geocode w location with
    | Ok (result :: rest) =>
        (Ok result, EGeocode location (Ok (result :: rest)) :: w)
    | Ok [] =>
        let e := ValueError ("Could not find location: " ++ location) in
        (Raise e,
         ELog ERROR ("Error geocoding " ++ location ++ ": " ++ exn_str e)
           :: EGeocode location (Ok []) :: w)
    | Raise e =>
        (Raise e,
         ELog ERROR ("Error geocoding " ++ location ++ ": " ++ exn_str e)
           :: EGeocode location (Raise e) :: w)
    end.
Proof.
  unfold geocode_location, try_except, bind, call_geocode.
  destruct (client_geocode w location) as [[|result rest]|e]; reflexivity.
Qed.

Lemma constraint_loop_step (start_geo end_geo : Location F) (max_stops : Z)
    (location : string) (rest : list string)
    (constraint_stops : list (Location F)) (w : World F) :
  constraint_loop start_geo end_geo max_stops (location :: rest)
                  constraint_stops w
  = match geocode_location location w with
    | (Raise e, w1) =>
        constraint_loop start_geo end_geo max_stops rest constraint_stops
                        (constraint_warning location e :: w1)
    | (Ok geo_location, w1) =>
        if _is_location_reasonable start_geo end_geo (Geocoded geo_location)
        then
          let stops := (constraint_stops ++ [Geocoded geo_location])%list in
          if Z.of_nat (List.length stops) >=? max_stops
          then (Ok stops, w1)
          else constraint_loop start_geo end_geo max_stops rest stops w1
        else
          constraint_loop start_geo end_geo max_stops rest constraint_stops
                          w1
    end.
Proof.
  cbn [constraint_loop]. unfold bind at 1, try_except, constraint_try.
  unfold bind at 1.
  destruct (geocode_location location w) as [[g|e] w1]; [|reflexivity].
  destruct (_is_location_reasonable start_geo end_geo (Geocoded g));
    [|reflexivity].
  cbv zeta.
  destruct (Z.of_nat (List.length (constraint_stops ++ [Geocoded g])) >=?
            max_stops); reflexivity.
Qed.

Lemma constraint_loop_total (start_geo end_geo : Location F)
    (max_stops : Z) (constraint_locations : list string) :
  forall (constraint_stops : list (Location F)) (w : World F),
  exists stops w',
    constraint_loop start_geo end_geo max_stops constraint_locations
                    constraint_stops w
    = (Ok stops, w').
Proof.
  induction constraint_locations as [|location rest IH]; intros acc w.
  - exists acc, w. reflexivity.
  - rewrite constraint_loop_step.
    destruct (geocode_location location w) as [[g|e] w1]; [|apply IH].
    destruct (_is_location_reasonable start_geo end_geo (Geocoded g));
      [|apply IH].
    cbv zeta.
    destruct (Z.of_nat (List.length (acc ++ [Geocoded g])) >=? max_stops);
      [|apply IH].
    eexists. eexists. reflexivity.
Qed.

Lemma geocoded_by_app (new1 new2 : World F) (g : GeoResult F) :
  geocoded_by (new1 ++ new2)%list g <-> geocoded_by new1 g \/ geocoded_by new2 g.
Proof.
  unfold geocoded_by. split.
  - intros (loc & rest & Hin). apply in_app_or in Hin.
    destruct Hin as [H|H]; [left|right]; exists loc, rest; exact H.
  - intros [(loc & rest & H)|(loc & rest & H)]; exists loc, rest;
      apply in_or_app; [left|right]; exact H.
Qed.

Lemma geocoded_by_nil (g : GeoResult F) : ~ geocoded_by [] g.
Proof. intros (loc & rest & []). Qed.

Lemma constraint_loop_spec (start_geo end_geo : Location F) (max_stops : Z)
    (constraint_locations : list string) :
  forall (constraint_stops stops : list (Location F)) (w w' : World F),
    constraint_loop start_geo end_geo max_stops constraint_locations
                    constraint_stops w
    = (Ok stops, w') ->
    exists new added,
      w' = (new ++ w)%list
      /\ stops = (constraint_stops ++ added)%list
      /\ (forall x, In x added ->
            exists g, x = Geocoded g /\ geocoded_by new g
                      /\ _is_location_reasonable start_geo end_geo x = true)
      /\ (forall g, geocoded_by new g ->
            _is_location_reasonable start_geo end_geo (Geocoded g) = true ->
            In (Geocoded g) added)
      /\ (Z.of_nat (List.length constraint_stops) < max_stops ->
          Z.of_nat (List.length stops) <= max_stops).
Proof.
  induction constraint_locations as [|location rest IH];
    intros acc stops w w' E.
  - apply ret_ok in E. destruct E as [-> ->].
    exists [], []. rewrite app_nil_r. repeat split; try reflexivity.
    + intros x [].
    + intros g Hg. destruct (geocoded_by_nil g Hg).
    + lia.
  - rewrite constraint_loop_step, geocode_location_eq in E.
    destruct (client_geocode w location) as [[|g others]|e] eqn:Hgeo.
    + (* no result: a ValueError, skipped *)
      cbv zeta in E. apply IH in E.
      destruct E as (new & added & -> & -> & Hin & Hall & Hlen).
      eexists (new ++ [_; _; _])%list, added.
      rewrite <- app_assoc. split; [reflexivity|]. split; [reflexivity|].
      split; [|split; [|exact Hlen]].
      * intros x Hx. destruct (Hin x Hx) as (g & -> & Hg & Hr).
        exists g. repeat split; auto.
        apply geocoded_by_app. left. exact Hg.
      * intros g Hg Hr. apply geocoded_by_app in Hg.
        destruct Hg as [Hg|(loc & rs & Hg)]; [apply Hall; assumption|].
        simpl in Hg. destruct Hg as [Hg|[Hg|[Hg|[]]]]; discriminate Hg.
    + (* geocoded *)
      destruct (_is_location_reasonable start_geo end_geo (Geocoded g))
        eqn:Hreason.
      * cbv zeta in E.
        destruct (Z.of_nat (List.length (acc ++ [Geocoded g])) >=? max_stops)
          eqn:Hfull.
        -- inversion E; subst. clear E.
           exists [EGeocode location (Ok (g :: others))], [Geocoded g].
           split; [reflexivity|]. split; [reflexivity|].
           split; [|split].
           ++ intros x [<-|[]]. exists g. repeat split; auto.
              exists location, others. left. reflexivity.
           ++ intros g' (loc & rs & [Hg|[]]) _. inversion Hg. left.
              reflexivity.
           ++ rewrite length_app. simpl. lia.
        -- apply IH in E.
           destruct E as (new & added & -> & -> & Hin & Hall & Hlen).
           exists (new ++ [EGeocode location (Ok (g :: others))])%list,
                  (Geocoded g :: added).
           rewrite <- !app_assoc. split; [reflexivity|].
           split; [reflexivity|]. split; [|split].
           ++ intros x [<-|Hx].
              ** exists g. repeat split; auto. apply geocoded_by_app.
                 right. exists location, others. left. reflexivity.
              ** destruct (Hin x Hx) as (g' & -> & Hg & Hr).
                 exists g'. repeat split; auto.
                 apply geocoded_by_app. left. exact Hg.
           ++ intros g' Hg Hr. apply geocoded_by_app in Hg.
              destruct Hg as [Hg|(loc & rs & [Hg|[]])].
              ** right. apply Hall; assumption.
              ** inversion Hg. left. reflexivity.
           ++ intros _. rewrite app_assoc. apply Hlen.
              rewrite Z.geb_leb in Hfull. apply Z.leb_gt in Hfull.
              exact Hfull.
      * apply IH in E.
        destruct E as (new & added & -> & -> & Hin & Hall & Hlen).
        exists (new ++ [EGeocode location (Ok (g :: others))])%list, added.
        rewrite <- app_assoc. split; [reflexivity|]. split; [reflexivity|].
        split; [|split; [|exact Hlen]].
        -- intros x Hx. destruct (Hin x Hx) as (g' & -> & Hg & Hr).
           exists g'. repeat split; auto.
           apply geocoded_by_app. left. exact Hg.
        -- intros g' Hg Hr. apply geocoded_by_app in Hg.
           destruct Hg as [Hg|(loc & rs & [Hg|[]])];
             [apply Hall; assumption|].
           inversion Hg; subst. congruence.
    + (* the geocoder raised, skipped *)
      apply IH in E.
      destruct E as (new & added & -> & -> & Hin & Hall & Hlen).
      eexists (new ++ [_; _; _])%list, added.
      rewrite <- app_assoc. split; [reflexivity|]. split; [reflexivity|].
      split; [|split; [|exact Hlen]].
      * intros x Hx. destruct (Hin x Hx) as (g & -> & Hg & Hr).
        exists g. repeat split; auto.
        apply geocoded_by_app. left. exact Hg.
      * intros g Hg Hr. apply geocoded_by_app in Hg.
        destruct Hg as [Hg|(loc & rs & Hg)]; [apply Hall; assumption|].
        simpl in Hg. destruct Hg as [Hg|[Hg|[Hg|[]]]]; discriminate Hg.
Qed.

(** ** Gap filling *)

Lemma find_among_places (f : Location F -> bool)
    (nearby_places : list (PlaceResult F)) (x : Location F) :
  find f (map Place nearby_places) = Some x -> is_place x = true.
Proof.
  intros H. apply find_some in H. destruct H as [Hin _].
  apply in_map_iff in Hin. destruct Hin as (p & <- & _). reflexivity.
Qed.

Lemma places_loop_spec (start_geo end_geo : Location F) (num_stops : Z)
    (indices : list Z) :
  forall (places stops : list (Location F)) (w w' : World F),
    places_loop start_geo end_geo num_stops indices places w
    = (Ok stops, w') ->
    exists new added,
      w' = (new ++ w)%list
      /\ stops = (places ++ added)%list
      /\ forallb is_place added = true
      /\ forallb is_search new = true
      /\ (List.length added <= List.length indices)%nat.
Proof.
  induction indices as [|i rest IH]; intros places stops w w' E.
  - apply ret_ok in E. destruct E as [-> ->].
    exists [], []. rewrite app_nil_r. repeat split; simpl; lia.
  - cbn [places_loop] in E.
    apply bind_ok in E. destruct E as (ratio & w1 & Hr & E).
    apply lift_ok in Hr. destruct Hr as [_ ->].
    apply bind_ok in E. destruct E as (nearby & w2 & Hs & E).
    unfold search_places_in_area in Hs. inversion Hs; subst. clear Hs.
    cbv zeta in E.
    match type of E with
    | places_loop _ _ _ _ ?p _ = _ =>
        assert (Hextra : exists extra,
                   p = (places ++ extra)%list
                   /\ forallb is_place extra = true
                   /\ (List.length extra <= 1)%nat)
    end.
    { destruct (search_places w _ 30000) as [|p0 ps] eqn:Hnear.
      - exists []. rewrite app_nil_r. repeat split; simpl; lia.
      - destruct (find (away_from_ends start_geo end_geo)
                       (map Place (p0 :: ps))) as [place|] eqn:Hfind.
        + exists [place]. split; [reflexivity|]. split; [|simpl; lia].
          simpl. rewrite (find_among_places _ _ _ Hfind). reflexivity.
        + exists []. rewrite app_nil_r. repeat split; simpl; lia. }
    destruct Hextra as (extra & Hp & Hplace & Hlen).
    rewrite Hp in E. apply IH in E.
    destruct E as (new & added & -> & -> & Hadded & Hnew & Hla).
    eexists (new ++ [_])%list, (extra ++ added)%list.
    rewrite <- !app_assoc. split; [reflexivity|]. split; [reflexivity|].
    rewrite !forallb_app, Hadded, Hnew, Hplace, length_app. simpl.
    repeat split; lia.
Qed.

Lemma searches_geocode_nothing (new : World F) (g : GeoResult F) :
  forallb is_search new = true -> ~ geocoded_by new g.
Proof.
  intros Hall (loc & rest & Hin).
  rewrite forallb_forall in Hall. apply Hall in Hin. discriminate Hin.
Qed.

Lemma py_range_length (n : Z) :
  List.length (py_range 1 (n + 1)) = Z.to_nat n.
Proof.
  unfold py_range. rewrite length_map, length_seq. f_equal. lia.
Qed.

Lemma py_slice_to_all {A} (l : list A) (n : Z) :
  Z.of_nat (List.length l) <= n -> py_slice_to l n = l.
Proof.
  intros H. unfold py_slice_to.
  replace (n <? 0) with false by (symmetry; apply Z.ltb_ge; lia).
  apply firstn_all2. lia.
Qed.

(** ** [sorted] returns a rearrangement *)

Lemma keys_of_snd {A : Type} (key : A -> result F) (l : list A) :
  forall kl, keys_of key l = Ok kl -> map snd kl = l.
Proof.
  induction l as [|x l IH]; simpl; intros kl E.
  - inversion E. reflexivity.
  - destruct (key x) as [k|e]; [|discriminate E].
    destruct (keys_of key l) as [kl'|e]; [|discriminate E].
    inversion E. simpl. rewrite (IH kl' eq_refl). reflexivity.
Qed.

Lemma insert_keyed_perm {A : Type} (x : F * A) (l : list (F * A)) :
  Permutation (x :: l) (insert_keyed x l).
Proof.
  induction l as [|y l IH]; simpl; [apply Permutation_refl|].
  destruct (fltb (fst y) (fst x)); [|apply Permutation_refl].
  eapply perm_trans; [apply perm_swap|]. apply perm_skip. exact IH.
Qed.

Lemma sort_keyed_perm {A : Type} (l : list (F * A)) :
  Permutation l (sort_keyed l).
Proof.
  induction l as [|x l IH]; simpl; [constructor|].
  eapply perm_trans; [apply perm_skip, IH | apply insert_keyed_perm].
Qed.

Lemma sorted_perm {A : Type} (key : A -> result F) (l ordered : list A) :
  sorted l key = Ok ordered -> Permutation l ordered.
Proof.
  unfold sorted. intros E.
  destruct (keys_of key l) as [kl|e] eqn:Hk; [|discriminate E].
  inversion E. rewrite <- (keys_of_snd key l kl Hk).
  apply Permutation_map, sort_keyed_perm.
Qed.

(** ** Gap filling and ordering never raise *)

Lemma places_loop_total (start_geo end_geo : Location F) (num_stops : Z)
    (indices : list Z) :
  num_stops + 1 <> 0 ->
  forall (places : list (Location F)) (w : World F),
  exists stops w',
    places_loop start_geo end_geo num_stops indices places w
    = (Ok stops, w').
Proof.
  intros Hn. induction indices as [|i rest IH]; intros places w.
  - exists places, w. reflexivity.
  - cbn [places_loop]. unfold int_truediv.
    destruct (num_stops + 1 =? 0) eqn:E; [apply Z.eqb_eq in E; contradiction|].
    unfold bind at 1, lift. unfold bind at 1, search_places_in_area.
    apply IH.
Qed.

Lemma route_position_ok (start_geo end_geo stop : Location F) :
  exists k, route_position start_geo end_geo stop = Ok k.
Proof.
  unfold route_position. cbv zeta.
  destruct (fltb (of_int 0) (_calculate_distance start_geo end_geo)) eqn:E.
  - unfold py_truediv.
    destruct (feqb (_calculate_distance start_geo end_geo) (of_int 0))
      eqn:Ez.
    + apply feqb_eq in Ez. rewrite Ez, fltb_irrefl in E. discriminate E.
    + eexists. reflexivity.
  - eexists. reflexivity.
Qed.

Lemma keys_of_map {A : Type} (key : A -> result F) (f : A -> F)
    (l : list A) :
  (forall x, In x l -> key x = Ok (f x)) ->
  keys_of key l = Ok (map (fun x => (f x, x)) l).
Proof.
  induction l as [|x l IH]; intros H; simpl.
  - reflexivity.
  - rewrite (H x) by (left; reflexivity).
    rewrite IH by (intros y Hy; apply H; right; exact Hy).
    reflexivity.
Qed.

Lemma keys_of_total {A : Type} (key : A -> result F) (l : list A) :
  (forall x, exists k, key x = Ok k) ->
  exists kl, keys_of key l = Ok kl /\ map snd kl = l.
Proof.
  intros H. induction l as [|x l IH]; simpl.
  - exists []. split; reflexivity.
  - destruct (H x) as [k ->]. destruct IH as (kl & -> & Hkl).
    exists ((k, x) :: kl). simpl. rewrite Hkl. split; reflexivity.
Qed.

Lemma _sort_stops_by_route_total (start_geo end_geo : Location F)
    (stops : list (Location F)) :
  exists ordered, _sort_stops_by_route start_geo end_geo stops = Ok ordered.
Proof.
  unfold _sort_stops_by_route, sorted.
  destruct (keys_of_total (route_position start_geo end_geo) stops
                          (route_position_ok start_geo end_geo))
    as (kl & -> & _).
  eexists. reflexivity.
Qed.

Lemma constraint_stage_total (start_geo end_geo : Location F)
    (constraint_locations : option (list string)) (max_possible_stops : Z)
    (w : World F) :
  exists stops w',
    constraint_stage start_geo end_geo constraint_locations
                     max_possible_stops w
    = (Ok stops, w').
Proof.
  unfold constraint_stage, _process_constraint_locations.
  destruct constraint_locations as [[|c cs]|];
    try (exists [], w; reflexivity).
  apply constraint_loop_total.
Qed.

Lemma gap_stage_total (start_geo end_geo : Location F) (remaining_stops : Z)
    (w : World F) :
  exists stops w',
    gap_stage start_geo end_geo remaining_stops w = (Ok stops, w').
Proof.
  unfold gap_stage, _find_places_along_route.
  destruct (remaining_stops >? 0) eqn:E.
  - apply places_loop_total. apply Z.gtb_lt in E. lia.
  - exists [], w. reflexivity.
Qed.

Lemma _find_intermediate_stops_total (start_geo end_geo : Location F)
    (constraint_locations : option (list string))
    (max_stops total_days min_stay : Z) (w : World F) :
  min_stay <> 0 ->
  (forall e, client_directions w (coord_str start_geo) (coord_str end_geo)
             <> Raise e) ->
  exists stops w',
    _find_intermediate_stops start_geo end_geo constraint_locations
                             max_stops total_days min_stay w
    = (Ok stops, w').
Proof.
  intros Hm Hdir.
  destruct (Z_le_gt_dec (capacity max_stops total_days min_stay) 0)
    as [Hle|Hgt].
  - exists [], w. apply _find_intermediate_stops_no_capacity; assumption.
  - rewrite _find_intermediate_stops_stages by (auto; lia). cbv zeta.
    unfold bind at 1. rewrite get_directions_eq.
    destruct (client_directions w (coord_str start_geo) (coord_str end_geo))
      as [result|e] eqn:Hd; [|exfalso; apply (Hdir e); reflexivity].
    unfold bind at 1.
    match goal with
    | |- context [constraint_stage ?a ?b ?c ?d ?w1] =>
        destruct (constraint_stage_total a b c d w1) as (cs & w2 & ->)
    end.
    unfold bind at 1.
    match goal with
    | |- context [gap_stage ?a ?b ?c ?w2] =>
        destruct (gap_stage_total a b c w2) as (rs & w3 & ->)
    end.
    unfold bind at 1, lift.
    destruct (_sort_stops_by_route_total start_geo end_geo (cs ++ rs))
      as (ordered & ->).
    eexists. eexists. reflexivity.
Qed.

(** C8. [_process_constraint_locations] never raises; when geocoding a
    constraint fails, the loop logs a warning for it, keeps the stops found
    so far and goes on with the remaining constraints; and the stop
    selection as a whole returns a list whatever the geocoder answers for
    the constraints (it can only stop on its own directions lookup or on a
    zero [min_stay]). *)
Theorem constraint_failures_are_skipped :
  (forall (constraint_locations : list string)
          (start_geo end_geo : Location F) (max_stops : Z) (w : World F),
      exists stops w',
        _process_constraint_locations constraint_locations start_geo
                                      end_geo max_stops w
        = (Ok stops, w'))
  /\ (forall (start_geo end_geo : Location F) (max_stops : Z)
             (location : string) (rest : list string)
             (constraint_stops : list (Location F)) (w w1 : World F)
             (e : exn),
         geocode_location location w = (Raise e, w1) ->
         constraint_loop start_geo end_geo max_stops (location :: rest)
                         constraint_stops w
         = constraint_loop start_geo end_geo max_stops rest
                           constraint_stops
                           (constraint_warning location e :: w1))
  /\ (forall (start_geo end_geo : Location F)
             (constraint_locations : option (list string))
             (max_stops total_days min_stay : Z) (w : World F),
         min_stay <> 0 ->
         (forall e,
             client_directions w (coord_str start_geo) (coord_str end_geo)
             <> Raise e) ->
         exists stops w',
           _find_intermediate_stops start_geo end_geo constraint_locations
                                    max_stops total_days min_stay w
           = (Ok stops, w')).
Proof.
  split; [|split].
  - intros. unfold _process_constraint_locations.
    apply constraint_loop_total.
  - intros sg eg max_stops location rest acc w w1 e Hgeo.
    rewrite constraint_loop_step, Hgeo. reflexivity.
  - intros. apply _find_intermediate_stops_total; assumption.
Qed.

(** ** Minimum stay *)

(** X5. When the start and the end both fit
    ([2 * min_stay <= total_days]),
    every entry of the schedule of a returned itinerary has at least
    [min_stay] days. *)
Lemma schedule_min_stay_when_both_ends_fit
    (start_location end_location : string) (start_date end_date : datetime)
    (constraint_locations : option (list string)) (max_stops min_stay : Z)
    (w w' : World F) (it : Itinerary F) :
  1 <= min_stay ->
  2 * min_stay <= delta_days end_date start_date ->
  generate_itinerary start_location end_location start_date end_date
                     constraint_locations max_stops min_stay w
  = (Ok it, w') ->
  min_stay * Z.of_nat (List.length (it_locations it))
  <= delta_days end_date start_date
  /\ Forall (fun entry => min_stay <= entry_days entry)
            (it_daily_schedule it).
Proof.
  intros Hm Hfit E. apply generate_itinerary_ok in E.
  destruct E as (sg & eg & stops & w1 & w2 & _ & Hstops & Hloc & _ & Hsch & _).
  apply _find_intermediate_stops_length in Hstops.
  destruct Hstops as [_ Hlen]. unfold capacity in Hlen.
  set (T := delta_days end_date start_date) in *.
  set (n := Z.of_nat (List.length (it_locations it))).
  assert (Hn : n = Z.of_nat (List.length stops) + 2).
  { unfold n. rewrite Hloc. cbn [List.length]. rewrite length_app.
    cbn [List.length]. lia. }
  assert (Hq : min_stay * ((T - 2 * min_stay) / min_stay)
               <= T - 2 * min_stay).
  { apply Z.mul_div_le. lia. }
  assert (Hbound : min_stay * n <= T) by nia.
  split; [exact Hbound|].
  rewrite Hsch. unfold _distribute_days. fold n.
  destruct (n =? 0) eqn:E0; [constructor|].
  assert (Hbase : min_stay <= T / n).
  { apply Z.div_le_lower_bound; lia. }
  rewrite Z.max_r by exact Hbase.
  eapply Forall_impl;
    [|apply distribute_loop_days_ge].
  - intros entry He. simpl in He. lia.
  - pose proof (Z.mul_div_le T n ltac:(lia)). lia.
Qed.

(** ** The detour filter *)

Lemma constraint_stage_spec (start_geo end_geo : Location F)
    (constraint_locations : option (list string)) (cap : Z)
    (w w' : World F) (stops : list (Location F)) :
  0 < cap ->
  constraint_stage start_geo end_geo constraint_locations cap w
  = (Ok stops, w') ->
  exists new,
    w' = (new ++ w)%list
    /\ (forall x, In x stops ->
          exists g, x = Geocoded g /\ geocoded_by new g
                    /\ _is_location_reasonable start_geo end_geo x = true)
    /\ (forall g, geocoded_by new g ->
          _is_location_reasonable start_geo end_geo (Geocoded g) = true ->
          In (Geocoded g) stops)
    /\ Z.of_nat (List.length stops) <= cap.
Proof.
  intros Hcap E. unfold constraint_stage in E.
  assert (Hnone : ret [] w = (Ok stops, w') ->
                  exists new,
                    w' = (new ++ w)%list
                    /\ (forall x, In x stops ->
                          exists g, x = Geocoded g /\ geocoded_by new g
                                    /\ _is_location_reasonable
                                         start_geo end_geo x = true)
                    /\ (forall g, geocoded_by new g ->
                          _is_location_reasonable start_geo end_geo
                                                  (Geocoded g) = true ->
                          In (Geocoded g) stops)
                    /\ Z.of_nat (List.length stops) <= cap).
  { intros E'. apply ret_ok in E'. destruct E' as [-> ->].
    exists []. repeat split.
    - intros x [].
    - intros g Hg. destruct (geocoded_by_nil g Hg).
    - simpl. lia. }
  destruct constraint_locations as [[|c cs]|]; try (apply Hnone; exact E).
  unfold _process_constraint_locations in E.
  apply constraint_loop_spec in E.
  destruct E as (new & added & -> & -> & Hin & Hall & Hlen).
  exists new. simpl in *. repeat split; auto.
Qed.

Lemma gap_stage_spec (start_geo end_geo : Location F) (remaining_stops : Z)
    (w w' : World F) (stops : list (Location F)) :
  gap_stage start_geo end_geo remaining_stops w = (Ok stops, w') ->
  exists new,
    w' = (new ++ w)%list
    /\ forallb is_place stops = true
    /\ forallb is_search new = true
    /\ Z.of_nat (List.length stops) <= Z.max 0 remaining_stops.
Proof.
  unfold gap_stage, _find_places_along_route. intros E.
  destruct (remaining_stops >? 0) eqn:Hrem.
  - apply places_loop_spec in E.
    destruct E as (new & added & -> & -> & Hadded & Hnew & Hlen).
    exists new. simpl. rewrite py_range_length in Hlen.
    apply Z.gtb_lt in Hrem. repeat split; auto. lia.
  - apply ret_ok in E. destruct E as [-> ->].
    exists []. simpl. repeat split; lia.
Qed.

(** C5. In a run of the stop selector that returns [stops], a constraint
    that was geocoded to [g] is among [stops] if and only if
    [distance(start, g) + distance(g, end) <= 1.5 * distance(start, end)];
    so a rejected constraint is not in the list.  The geocoded locations
    in [stops] are exactly the accepted constraints. *)
Theorem detour_filter (start_geo end_geo : Location F)
    (constraint_locations : option (list string))
    (max_stops total_days min_stay : Z) (w w' : World F)
    (stops : list (Location F)) :
  _find_intermediate_stops start_geo end_geo constraint_locations
                           max_stops total_days min_stay w
  = (Ok stops, w') ->
  exists new,
    w' = (new ++ w)%list
    /\ (forall g,
          geocoded_by new g ->
          (In (Geocoded g) stops
           <-> fleb (fadd (_calculate_distance start_geo (Geocoded g))
                          (_calculate_distance (Geocoded g) end_geo))
                    (fmul (_calculate_distance start_geo end_geo) f1_5)
               = true))
    /\ (forall g, In (Geocoded g) stops -> geocoded_by new g).
Proof.
  intros E.
  destruct (_find_intermediate_stops_length _ _ _ _ _ _ _ _ _ E)
    as [Hm _].
  destruct (Z_le_gt_dec (capacity max_stops total_days min_stay) 0)
    as [Hle|Hgt].
  { rewrite _find_intermediate_stops_no_capacity in E by assumption.
    inversion E; subst. exists []. split; [reflexivity|]. split.
    - intros g Hg. destruct (geocoded_by_nil g Hg).
    - intros g []. }
  rewrite _find_intermediate_stops_stages in E by (auto; lia).
  cbv zeta in E.
  set (cap := capacity max_stops total_days min_stay) in *.
  apply bind_ok in E. destruct E as (route_info & w1 & Hdir & E).
  apply bind_ok in E. destruct E as (cs & w2 & Hcs & E).
  apply bind_ok in E. destruct E as (rs & w3 & Hrs & E).
  apply bind_ok in E. destruct E as (ordered & w4 & Hsort & E).
  apply ret_ok in E. destruct E as [-> ->].
  apply lift_ok in Hsort. destruct Hsort as [Hsort ->].
  rewrite get_directions_eq in Hdir.
  destruct (client_directions w (coord_str start_geo) (coord_str end_geo))
    as [result|e]; [|discriminate Hdir].
  inversion Hdir; subst route_info w1. clear Hdir.
  apply constraint_stage_spec in Hcs; [|lia].
  destruct Hcs as (new_c & -> & Hin & Hall & Hlen_c).
  apply gap_stage_spec in Hrs.
  destruct Hrs as (new_g & -> & Hplaces & Hsearch & Hlen_g).
  apply sorted_perm in Hsort.
  assert (Hlen : Z.of_nat (List.length ordered) <= cap).
  { rewrite <- (Permutation_length Hsort), length_app. lia. }
  rewrite (py_slice_to_all _ _ Hlen).
  assert (Hstops : forall g, In (Geocoded g) ordered <-> In (Geocoded g) cs).
  { intros g. split.
    - intros H. apply (Permutation_in _ (Permutation_sym Hsort)) in H.
      apply in_app_or in H. destruct H as [H|H]; [exact H|].
      rewrite forallb_forall in Hplaces. apply Hplaces in H.
      discriminate H.
    - intros H. apply (Permutation_in _ Hsort). apply in_or_app. left.
      exact H. }
  assert (Hgeo : forall g,
             geocoded_by (new_g ++ new_c ++ [EDirections
                            (coord_str start_geo) (coord_str end_geo)
                            (Ok result)])%list g
             <-> geocoded_by new_c g).
  { intros g. rewrite !geocoded_by_app. split.
    - intros [H|[H|(loc & rest & [H|[]])]];
        [destruct (searches_geocode_nothing _ _ Hsearch H) | exact H
         | discriminate H].
    - intros H. right. left. exact H. }
  exists (new_g ++ new_c ++ [EDirections (coord_str start_geo)
                                          (coord_str end_geo)
                                          (Ok result)])%list.
  split; [rewrite <- !app_assoc; reflexivity|].
  change (fleb (fadd (_calculate_distance start_geo ?x)
                     (_calculate_distance ?x end_geo))
               (fmul (_calculate_distance start_geo end_geo) f1_5))
    with (_is_location_reasonable start_geo end_geo x).
  split.
  - intros g Hg. apply Hgeo in Hg.
    change (fleb (fadd (_calculate_distance start_geo (Geocoded g))
                       (_calculate_distance (Geocoded g) end_geo))
                 (fmul (_calculate_distance start_geo end_geo) f1_5))
      with (_is_location_reasonable start_geo end_geo (Geocoded g)).
    rewrite Hstops. split.
    + intros Hcs. destruct (Hin _ Hcs) as (g' & Hg' & _ & Hr). exact Hr.
    + intros Hr. apply Hall; assumption.
  - intros g Hg. apply Hgeo. apply Hstops in Hg.
    destruct (Hin _ Hg) as (g' & Hg' & Hby & _). inversion Hg'; subst.
    exact Hby.
Qed.

(** ** Route order *)

Lemma _calculate_distance_nonneg (a b : Location F) :
  fltb (_calculate_distance a b) (of_int 0) = false.
Proof.
  unfold _calculate_distance. cbv zeta.
  apply fmul_nonneg; [apply fmul_nonneg|]; try (apply of_int_nonneg; lia).
  apply fasin_nonneg, fsqrt_nonneg.
Qed.

Lemma route_position_eq (start_geo end_geo stop : Location F) :
  route_position start_geo end_geo stop
  = Ok (position start_geo end_geo stop).
Proof.
  unfold route_position, position, py_truediv. cbv zeta.
  destruct (feqb (_calculate_distance start_geo end_geo) (of_int 0)) eqn:Ez.
  - apply feqb_eq in Ez. rewrite Ez, fltb_irrefl. reflexivity.
  - destruct (fltb (of_int 0) (_calculate_distance start_geo end_geo))
      eqn:Elt; [reflexivity|].
    pose proof (fltb_total _ _ Elt
                  (_calculate_distance_nonneg start_geo end_geo)) as Heq.
    symmetry in Heq. apply feqb_eq in Heq. congruence.
Qed.

Lemma insert_keyed_tag {A : Type} (f : A -> F) (x : A) (l : list A) :
  insert_keyed (f x, x) (map (fun y => (f y, y)) l)
  = map (fun y => (f y, y)) (insert_by f x l).
Proof.
  induction l as [|y l IH]; simpl; [reflexivity|].
  destruct (fltb (f y) (f x)); simpl; [rewrite IH|]; reflexivity.
Qed.

Lemma sort_keyed_tag {A : Type} (f : A -> F) (l : list A) :
  sort_keyed (map (fun y => (f y, y)) l)
  = map (fun y => (f y, y)) (sort_by f l).
Proof.
  induction l as [|x l IH]; simpl; [reflexivity|].
  rewrite IH. apply insert_keyed_tag.
Qed.

Lemma sorted_eq {A : Type} (key : A -> result F) (f : A -> F) (l : list A) :
  (forall x, In x l -> key x = Ok (f x)) ->
  sorted l key = Ok (sort_by f l).
Proof.
  intros H. unfold sorted. rewrite (keys_of_map key f l H).
  rewrite sort_keyed_tag, map_map. simpl. rewrite map_id. reflexivity.
Qed.

Lemma insert_by_perm {A : Type} (f : A -> F) (x : A) (l : list A) :
  Permutation (x :: l) (insert_by f x l).
Proof.
  induction l as [|y l IH]; simpl; [apply Permutation_refl|].
  destruct (fltb (f y) (f x)); [|apply Permutation_refl].
  eapply perm_trans; [apply perm_swap|]. apply perm_skip. exact IH.
Qed.

Lemma sort_by_perm {A : Type} (f : A -> F) (l : list A) :
  Permutation l (sort_by f l).
Proof.
  induction l as [|x l IH]; simpl; [constructor|].
  eapply perm_trans; [apply perm_skip, IH | apply insert_by_perm].
Qed.

Lemma fltb_asym (a b : F) : fltb a b = true -> fltb b a = false.
Proof.
  intros H. destruct (fltb b a) eqn:E; [|reflexivity].
  pose proof (fltb_trans _ _ _ H E) as Haa.
  rewrite fltb_irrefl in Haa. discriminate Haa.
Qed.

Lemma insert_by_sorted {A : Type} (f : A -> F) (x : A) (l : list A) :
  StronglySorted (ascending f) l ->
  StronglySorted (ascending f) (insert_by f x l).
Proof.
  induction 1 as [|y l Hs IH Hall]; simpl.
  - constructor; constructor.
  - destruct (fltb (f y) (f x)) eqn:E.
    + constructor; [exact IH|].
      apply (Permutation_Forall (insert_by_perm f x l)).
      constructor; [|exact Hall].
      unfold ascending. apply fltb_asym. exact E.
    + constructor; [constructor; assumption|].
      constructor; [exact E|].
      eapply Forall_impl; [|exact Hall].
      intros z Hz. unfold ascending in *.
      apply (fltb_negtrans _ _ _ Hz E).
Qed.

Lemma sort_by_sorted {A : Type} (f : A -> F) (l : list A) :
  StronglySorted (ascending f) (sort_by f l).
Proof.
  induction l as [|x l IH]; simpl; [constructor|].
  apply insert_by_sorted. exact IH.
Qed.

Lemma insert_by_stable {A : Type} (f : A -> F) (k : F) (x : A)
    (l : list A) :
  filter (fun y => feqb (f y) k) (insert_by f x l)
  = filter (fun y => feqb (f y) k) (x :: l).
Proof.
  induction l as [|y l IH]; [reflexivity|].
  cbn [insert_by]. destruct (fltb (f y) (f x)) eqn:E; [|reflexivity].
  cbn [filter] in *. rewrite IH.
  destruct (feqb (f y) k) eqn:Ey; [|reflexivity].
  destruct (feqb (f x) k) eqn:Ex; [|reflexivity].
  apply feqb_eq in Ey, Ex. rewrite Ey, Ex, fltb_irrefl in E.
  discriminate E.
Qed.

Lemma sort_by_stable {A : Type} (f : A -> F) (k : F) (l : list A) :
  filter (fun y => feqb (f y) k) (sort_by f l)
  = filter (fun y => feqb (f y) k) l.
Proof.
  induction l as [|x l IH]; [reflexivity|].
  cbn [sort_by]. rewrite insert_by_stable. cbn [filter]. rewrite IH.
  reflexivity.
Qed.

(** C6. The key of a stop is [position]: zero when the start and the end
    are at distance zero, [distance(start, stop) / distance(start, end)]
    otherwise, and computing it never raises.  [_sort_stops_by_route]
    returns the stops rearranged in ascending order of position, and for
    every position the stops at that position are in the order they had in
    the input. *)
Theorem route_order_is_a_stable_sort (start_geo end_geo : Location F)
    (stops : list (Location F)) :
  (forall stop,
      route_position start_geo end_geo stop
      = Ok (position start_geo end_geo stop))
  /\ (feqb (_calculate_distance start_geo end_geo) (of_int 0) = true ->
      forall stop, route_position start_geo end_geo stop = Ok (of_int 0))
  /\ (feqb (_calculate_distance start_geo end_geo) (of_int 0) = false ->
      forall stop,
        route_position start_geo end_geo stop
        = Ok (fdiv (_calculate_distance start_geo stop)
                   (_calculate_distance start_geo end_geo)))
  /\ exists ordered,
      _sort_stops_by_route start_geo end_geo stops = Ok ordered
      /\ Permutation stops ordered
      /\ StronglySorted (ascending (position start_geo end_geo)) ordered
      /\ forall k,
          filter (fun s => feqb (position start_geo end_geo s) k) ordered
          = filter (fun s => feqb (position start_geo end_geo s) k) stops.
Proof.
  split; [|split; [|split]].
  - intros stop. apply route_position_eq.
  - intros Hz stop. rewrite route_position_eq. unfold position.
    rewrite Hz. reflexivity.
  - intros Hz stop. rewrite route_position_eq. unfold position.
    rewrite Hz. reflexivity.
  - exists (sort_by (position start_geo end_geo) stops).
    split; [|split; [|split]].
    + unfold _sort_stops_by_route. apply sorted_eq.
      intros x _. apply route_position_eq.
    + apply sort_by_perm.
    + apply sort_by_sorted.
    + intros k. apply sort_by_stable.
Qed.

End Properties.

(** * Further properties of the code *)

Section MoreProperties.

Context {F : Type} `{PF : PyFloat F} {C : Collaborators F}.

Notation "x <- m ;; k" := (bind m (fun x => k))
  (at level 61, m at next level, right associativity).

(** ** The run of [generate_itinerary], step by step *)

Lemma generate_itinerary_run (start_location end_location : string)
    (start_date end_date : datetime)
    (constraint_locations : option (list string)) (max_stops min_stay : Z)
    (w w' : World F) (it : Itinerary F) :
  generate_itinerary start_location end_location start_date end_date
                     constraint_locations max_stops min_stay w
  = (Ok it, w') ->
  let total_days := delta_days end_date start_date in
  exists start_geo end_geo stops wa wb w2,
    geocode_location start_location w = (Ok start_geo, wa)
    /\ geocode_location end_location wa = (Ok end_geo, wb)
    /\ _find_intermediate_stops (Geocoded start_geo) (Geocoded end_geo)
         constraint_locations max_stops total_days min_stay
         (ELog INFO ("Planning route from "
                     ++ geo_formatted_address start_geo ++ " to "
                     ++ geo_formatted_address end_geo) :: wb)
       = (Ok stops, w2)
    /\ it = mkItinerary start_location end_location
              (strftime start_date "%Y-%m-%d")
              (strftime end_date "%Y-%m-%d")
              total_days
              (Geocoded start_geo :: stops ++ [Geocoded end_geo])
              (_distribute_days
                 (Geocoded start_geo :: stops ++ [Geocoded end_geo])
                 start_date total_days min_stay)
              (it_travel_suggestions it).
Proof.
  intros E total_days. unfold generate_itinerary in E.
  fold total_days in E.
  destruct (total_days <? min_stay) eqn:Hlt; [discriminate E|].
  apply bind_ok in E. destruct E as (start_geo & wa & Hs & E).
  apply bind_ok in E. destruct E as (end_geo & wb & He & E).
  apply bind_ok in E. destruct E as (u & wc & Hlog & E).
  apply bind_ok in E. destruct E as (stops & w2 & Hstops & E).
  apply bind_ok in E. destruct E as (legs & w3 & Hlegs & E).
  apply ret_ok in E. destruct E as [-> ->].
  unfold log in Hlog. inversion Hlog; subst wc. clear Hlog.
  exists start_geo, end_geo, stops, wa, wb, w2.
  repeat split; assumption.
Qed.

(** ** The schedule follows the locations *)

Lemma distribute_loop_locations (n base : Z) (locations : list (Location F)) :
  forall i remaining current_date,
    map entry_location
        (distribute_loop n base i locations remaining current_date)
    = locations.
Proof.
  induction locations as [|x rest IH]; intros i remaining d.
  - reflexivity.
  - cbn [distribute_loop].
    destruct ((remaining >? 0) && (i <? n - 1)); cbn [map entry_location];
      rewrite IH; reflexivity.
Qed.

Lemma _distribute_days_locations (locations : list (Location F))
    (start_date : datetime) (total_days min_stay : Z) :
  map entry_location
      (_distribute_days locations start_date total_days min_stay)
  = locations.
Proof.
  unfold _distribute_days.
  destruct (Z.of_nat (List.length locations) =? 0) eqn:Hn.
  - apply Z.eqb_eq in Hn. destruct locations; [reflexivity|].
    simpl in Hn. lia.
  - apply distribute_loop_locations.
Qed.

Lemma distribute_loop_urls (n base : Z) (locations : list (Location F)) :
  forall i remaining current_date,
    Forall (fun entry =>
              entry_google_maps_url entry
              = get_google_maps_url (entry_location entry))
           (distribute_loop n base i locations remaining current_date).
Proof.
  induction locations as [|x rest IH]; intros i remaining d.
  - constructor.
  - cbn [distribute_loop].
    destruct ((remaining >? 0) && (i <? n - 1)); constructor;
      try reflexivity; apply IH.
Qed.

Lemma _distribute_days_urls (locations : list (Location F))
    (start_date : datetime) (total_days min_stay : Z) :
  Forall (fun entry =>
            entry_google_maps_url entry
            = get_google_maps_url (entry_location entry))
         (_distribute_days locations start_date total_days min_stay).
Proof.
  unfold _distribute_days.
  destruct (Z.of_nat (List.length locations) =? 0); [constructor|].
  apply distribute_loop_urls.
Qed.

(** X1. The schedule of a returned itinerary has one entry per location,
    in the order of the locations; the first entry is for the geocoded
    start, the last for the geocoded end, and each entry carries the map
    link of its location. *)
Theorem schedule_follows_locations
    (start_location end_location : string) (start_date end_date : datetime)
    (constraint_locations : option (list string)) (max_stops min_stay : Z)
    (w w' : World F) (it : Itinerary F) :
  generate_itinerary start_location end_location start_date end_date
                     constraint_locations max_stops min_stay w
  = (Ok it, w') ->
  map entry_location (it_daily_schedule it) = it_locations it
  /\ Forall (fun entry =>
               entry_google_maps_url entry
               = get_google_maps_url (entry_location entry))
            (it_daily_schedule it)
  /\ exists start_geo end_geo stops wa wb,
      geocode_location start_location w = (Ok start_geo, wa)
      /\ geocode_location end_location wa = (Ok end_geo, wb)
      /\ it_locations it
         = (Geocoded start_geo :: stops ++ [Geocoded end_geo])%list
      /\ hd_error (map entry_location (it_daily_schedule it))
         = Some (Geocoded start_geo)
      /\ last (map entry_location (it_daily_schedule it))
              (Geocoded start_geo)
         = Geocoded end_geo.
Proof.
  intros E. apply generate_itinerary_run in E.
  destruct E as (sg & eg & stops & wa & wb & w2 & Hs & He & _ & ->).
  cbn [it_daily_schedule it_locations].
  rewrite _distribute_days_locations.
  split; [reflexivity|]. split.
  - apply _distribute_days_urls.
  - exists sg, eg, stops, wa, wb. repeat split; try assumption.
    change (Geocoded sg :: stops ++ [Geocoded eg])%list
      with ((Geocoded sg :: stops) ++ [Geocoded eg])%list.
    apply last_last.
Qed.

(** ** The dates of the schedule *)

Lemma add_days_0 (d : datetime) : add_days d 0 = d.
Proof. destruct d. unfold add_days. simpl. rewrite Z.add_0_r. reflexivity. Qed.

Lemma add_days_add (d : datetime) (a b : Z) :
  add_days (add_days d a) b = add_days d (a + b).
Proof. unfold add_days. simpl. rewrite Z.add_assoc. reflexivity. Qed.

Lemma distribute_loop_cons (n base i : Z) (x : Location F)
    (rest : list (Location F)) (remaining : Z) (d : datetime) :
  exists days remaining',
    distribute_loop n base i (x :: rest) remaining d
    = mkEntry x (strftime d "%b %d")
              (strftime (add_days d days) "%b %d") days
              (get_google_maps_url x)
        :: distribute_loop n base (i + 1) rest remaining'
                           (add_days d days).
Proof.
  cbn [distribute_loop].
  destruct ((remaining >? 0) && (i <? n - 1)); eexists; eexists;
    reflexivity.
Qed.

Lemma distribute_loop_dates (n base : Z) (locations : list (Location F)) :
  forall i remaining d k entry,
    nth_error (distribute_loop n base i locations remaining d) k
    = Some entry ->
    entry_start_date entry
    = strftime
        (add_days d
           (total_of
              (firstn k (distribute_loop n base i locations remaining d))))
        "%b %d"
    /\ entry_end_date entry
       = strftime
           (add_days d
              (total_of
                 (firstn (S k)
                    (distribute_loop n base i locations remaining d))))
           "%b %d".
Proof.
  induction locations as [|x rest IH]; intros i remaining d k entry Hk.
  - destruct k; discriminate Hk.
  - destruct (distribute_loop_cons n base i x rest remaining d)
      as (days & remaining' & Heq).
    rewrite Heq in *. destruct k as [|k].
    + inversion Hk; subst entry. unfold total_of. simpl.
      rewrite add_days_0, Z.add_0_r. split; reflexivity.
    + simpl in Hk. apply IH in Hk. destruct Hk as [Hstart Hend].
      rewrite add_days_add in Hstart, Hend.
      split; [rewrite Hstart | rewrite Hend]; reflexivity.
Qed.

(** X2. In the schedule of a returned itinerary the entry at index [k]
    starts [days(0) + ... + days(k-1)] days after [start_date] and ends
    [days(k)] days later, both printed with ["%b %d"]; so each entry starts
    on the end date of the one before, and the last entry ends
    [total_days] days after [start_date]. *)
Theorem schedule_dates_are_back_to_back
    (start_location end_location : string) (start_date end_date : datetime)
    (constraint_locations : option (list string)) (max_stops min_stay : Z)
    (w w' : World F) (it : Itinerary F) :
  generate_itinerary start_location end_location start_date end_date
                     constraint_locations max_stops min_stay w
  = (Ok it, w') ->
  let schedule := it_daily_schedule it in
  (forall k entry,
      nth_error schedule k = Some entry ->
      entry_start_date entry
      = strftime (add_days start_date (total_of (firstn k schedule)))
                 "%b %d"
      /\ entry_end_date entry
         = strftime (add_days start_date
                              (total_of (firstn k schedule)
                               + entry_days entry))
                    "%b %d")
  /\ (forall k entry next,
         nth_error schedule k = Some entry ->
         nth_error schedule (S k) = Some next ->
         entry_start_date next = entry_end_date entry)
  /\ (forall entry,
         nth_error schedule (List.length schedule - 1) = Some entry ->
         entry_end_date entry
         = strftime (add_days start_date (delta_days end_date start_date))
                    "%b %d").
Proof.
  intros E schedule.
  assert (Htotal : total_of schedule = delta_days end_date start_date).
  { pose proof E as E1. apply generate_itinerary_ok in E1.
    destruct E1 as (sg & eg & stops & w1 & w2 & _ & _ & Hloc & _ & Hsch & _).
    unfold schedule. rewrite Hsch. apply _distribute_days_total.
    rewrite Hloc. discriminate. }
  apply generate_itinerary_run in E.
  destruct E as (sg & eg & stops & wa & wb & w2 & _ & _ & _ & Hit).
  assert (Hdates : forall k entry,
             nth_error schedule k = Some entry ->
             entry_start_date entry
             = strftime (add_days start_date (total_of (firstn k schedule)))
                        "%b %d"
             /\ entry_end_date entry
                = strftime (add_days start_date
                                     (total_of (firstn (S k) schedule)))
                           "%b %d").
  { unfold schedule. rewrite Hit. cbn [it_daily_schedule].
    unfold _distribute_days.
    destruct (_ =? 0); [intros [|k] entry Hk; discriminate Hk|].
    apply distribute_loop_dates. }
  assert (Hstep : forall k entry,
             nth_error schedule k = Some entry ->
             total_of (firstn (S k) schedule)
             = total_of (firstn k schedule) + entry_days entry).
  { generalize schedule. intros l. induction l as [|e l IH];
      intros k entry Hk; [destruct k; discriminate Hk|].
    destruct k as [|k].
    - inversion Hk. unfold total_of. simpl. lia.
    - simpl in Hk. apply IH in Hk. unfold total_of in *.
      cbn [firstn map fold_right] in *. lia. }
  split; [|split].
  - intros k entry Hk. destruct (Hdates k entry Hk) as [Hs He].
    rewrite <- (Hstep k entry Hk). split; assumption.
  - intros k entry next Hk Hn.
    destruct (Hdates k entry Hk) as [_ He].
    destruct (Hdates (S k) next Hn) as [Hs _].
    rewrite Hs, He. reflexivity.
  - intros entry Hk. destruct (Hdates _ entry Hk) as [_ He].
    rewrite He. rewrite firstn_all2, Htotal; [reflexivity|lia].
Qed.

(** ** What each location gets *)

Lemma distribute_loop_even (n base : Z) (locations : list (Location F)) :
  forall i remaining d,
    locations <> [] ->
    i + Z.of_nat (List.length locations) = n ->
    0 <= remaining <= Z.of_nat (List.length locations) - 1 ->
    map entry_days (distribute_loop n base i locations remaining d)
    = (repeat (base + 1) (Z.to_nat remaining)
       ++ repeat base (List.length locations - Z.to_nat remaining))%list.
Proof.
  induction locations as [|x rest IH]; intros i remaining d Hne Hlen Hrem.
  - contradiction.
  - assert (Hcase : rest = [] \/ rest <> []).
    { destruct rest; [left; reflexivity | right; discriminate]. }
    destruct Hcase as [-> | Hrest].
    + simpl in Hlen, Hrem. assert (remaining = 0) by lia. subst remaining.
      simpl.
      replace (i =? n - 1) with true by (symmetry; apply Z.eqb_eq; lia).
      simpl. rewrite Z.add_0_r. reflexivity.
    + assert (Hpos : 0 < Z.of_nat (List.length rest)).
      { destruct rest; [contradiction | simpl; lia]. }
      change (List.length (x :: rest)) with (S (List.length rest)) in *.
      rewrite Nat2Z.inj_succ in *.
      cbn [distribute_loop].
      replace (i <? n - 1) with true by (symmetry; apply Z.ltb_lt; lia).
      replace (i =? n - 1) with false by (symmetry; apply Z.eqb_neq; lia).
      rewrite andb_true_r.
      destruct (remaining >? 0) eqn:Hgt.
      * apply Z.gtb_lt in Hgt.
        replace (Z.min remaining 1) with 1 by lia.
        cbn [map entry_days].
        rewrite IH by (auto; lia).
        replace (Z.to_nat remaining) with (S (Z.to_nat (remaining - 1)))
          by lia.
        reflexivity.
      * assert (remaining = 0).
        { destruct (Z.gtb_spec remaining 0); [discriminate | lia]. }
        subst remaining.
        cbn [map entry_days].
        rewrite IH by (auto; lia). simpl.
        rewrite Nat.sub_0_r. reflexivity.
Qed.

Lemma distribute_loop_short (n base : Z) (locations : list (Location F)) :
  forall i remaining d,
    locations <> [] ->
    i + Z.of_nat (List.length locations) = n ->
    remaining <= 0 ->
    map entry_days (distribute_loop n base i locations remaining d)
    = (repeat base (List.length locations - 1) ++ [base + remaining])%list.
Proof.
  induction locations as [|x rest IH]; intros i remaining d Hne Hlen Hrem.
  - contradiction.
  - assert (Hgt : (remaining >? 0) = false).
    { destruct (Z.gtb_spec remaining 0); [lia | reflexivity]. }
    assert (Hcase : rest = [] \/ rest <> []).
    { destruct rest; [left; reflexivity | right; discriminate]. }
    destruct Hcase as [-> | Hrest].
    + simpl in Hlen. simpl. rewrite Hgt. simpl.
      replace (i =? n - 1) with true by (symmetry; apply Z.eqb_eq; lia).
      reflexivity.
    + assert (Hpos : 0 < Z.of_nat (List.length rest)).
      { destruct rest; [contradiction | simpl; lia]. }
      change (List.length (x :: rest)) with (S (List.length rest)) in *.
      rewrite Nat2Z.inj_succ in *.
      cbn [distribute_loop]. rewrite Hgt. cbn [andb].
      replace (i =? n - 1) with false by (symmetry; apply Z.eqb_neq; lia).
      cbn [map entry_days].
      rewrite IH by (auto; lia).
      replace (S (List.length rest) - 1)%nat
        with (S (List.length rest - 1)) by lia.
      reflexivity.
Qed.



(** ** Bounds and failures of [generate_itinerary] *)

(** X6. With [min_stay = 0] and a trip that does not end before it starts,
    [generate_itinerary] never returns an itinerary: once both ends are
    geocoded, the capacity computation divides by zero. *)
Theorem zero_min_stay_divides_by_zero
    (start_location end_location : string) (start_date end_date : datetime)
    (constraint_locations : option (list string)) (max_stops : Z)
    (w : World F) :
  0 <= delta_days end_date start_date ->
  (forall it w',
      generate_itinerary start_location end_location start_date end_date
                         constraint_locations max_stops 0 w
      <> (Ok it, w'))
  /\ (forall start_geo wa end_geo wb,
         geocode_location start_location w = (Ok start_geo, wa) ->
         geocode_location end_location wa = (Ok end_geo, wb) ->
         generate_itinerary start_location end_location start_date
                            end_date constraint_locations max_stops 0 w
         = (Raise ZeroDivisionError,
            ELog INFO ("Planning route from "
                       ++ geo_formatted_address start_geo ++ " to "
                       ++ geo_formatted_address end_geo) :: wb)).
Proof.
  intros Hdays. split.
  - intros it w' E. apply generate_itinerary_ok in E.
    destruct E as (sg & eg & stops & w1 & w2 & _ & Hstops & _).
    apply _find_intermediate_stops_length in Hstops.
    destruct Hstops as [Hm _]. apply Hm. reflexivity.
  - intros sg wa eg wb Hs He. unfold generate_itinerary.
    replace (delta_days end_date start_date <? 0) with false
      by (symmetry; apply Z.ltb_ge; exact Hdays).
    unfold bind at 1. rewrite Hs.
    unfold bind at 1. rewrite He.
    reflexivity.
Qed.

(** X7. A returned itinerary has at most [max(max_stops, 0)] intermediate
    stops: at most [max(max_stops, 0) + 2] locations and schedule entries,
    and at most [max(max_stops, 0) + 1] travel legs. *)
Theorem itinerary_size_is_bounded_by_max_stops
    (start_location end_location : string) (start_date end_date : datetime)
    (constraint_locations : option (list string)) (max_stops min_stay : Z)
    (w w' : World F) (it : Itinerary F) :
  generate_itinerary start_location end_location start_date end_date
                     constraint_locations max_stops min_stay w
  = (Ok it, w') ->
  2 <= Z.of_nat (List.length (it_locations it)) <= Z.max max_stops 0 + 2
  /\ List.length (it_daily_schedule it) = List.length (it_locations it)
  /\ Z.of_nat (List.length (it_travel_suggestions it))
     <= Z.max max_stops 0 + 1.
Proof.
  intros E. pose proof E as E1. apply generate_itinerary_ok in E1.
  destruct E1 as (sg & eg & stops & w1 & w2 & _ & Hstops & Hloc & _ & Hsch
                  & Hlegs).
  apply _find_intermediate_stops_length in Hstops.
  destruct Hstops as [_ Hlen]. unfold capacity in Hlen.
  assert (Hn : Z.of_nat (List.length (it_locations it))
               = Z.of_nat (List.length stops) + 2).
  { rewrite Hloc. cbn [List.length]. rewrite length_app.
    cbn [List.length]. lia. }
  split; [lia|]. split.
  - rewrite Hsch. apply _distribute_days_length.
  - apply suggestions_loop_count in Hlegs.
    destruct Hlegs as (new & _ & _ & Hnew & Hcount).
    pose proof (filter_length_le_all answered_with_legs new).
    simpl in Hcount. lia.
Qed.

(** X10. The two ends of the trip are not treated like constraints: when
    the geocoder raises for the start, or finds nothing for it,
    [generate_itinerary] stops with that error after this single lookup
    (the end is not looked up); and when the start is geocoded and the end
    is not, it stops with the error of the end. *)
Theorem endpoint_geocoding_failure_aborts
    (start_location end_location : string) (start_date end_date : datetime)
    (constraint_locations : option (list string)) (max_stops min_stay : Z)
    (w : World F) :
  min_stay <= delta_days end_date start_date ->
  (forall e,
      client_geocode w start_location = Raise e ->
      generate_itinerary start_location end_location start_date end_date
                         constraint_locations max_stops min_stay w
      = (Raise e,
         ELog ERROR ("Error geocoding " ++ start_location ++ ": "
                     ++ exn_str e)
           :: EGeocode start_location (Raise e) :: w))
  /\ (client_geocode w start_location = Ok [] ->
      generate_itinerary start_location end_location start_date end_date
                         constraint_locations max_stops min_stay w
      = (Raise (ValueError ("Could not find location: " ++ start_location)),
         ELog ERROR ("Error geocoding " ++ start_location
                     ++ ": Could not find location: " ++ start_location)
           :: EGeocode start_location (Ok []) :: w))
  /\ (forall start_geo wa e wb,
         geocode_location start_location w = (Ok start_geo, wa) ->
         geocode_location end_location wa = (Raise e, wb) ->
         generate_itinerary start_location end_location start_date
                            end_date constraint_locations max_stops
                            min_stay w
         = (Raise e, wb)).
Proof.
  intros Hdays.
  assert (Hlt : (delta_days end_date start_date <? min_stay) = false)
    by (apply Z.ltb_ge; exact Hdays).
  split; [|split].
  - intros e He. unfold generate_itinerary. rewrite Hlt.
    unfold bind at 1. rewrite geocode_location_eq, He. reflexivity.
  - intros He. unfold generate_itinerary. rewrite Hlt.
    unfold bind at 1. rewrite geocode_location_eq, He. reflexivity.
  - intros sg wa e wb Hs He. unfold generate_itinerary. rewrite Hlt.
    unfold bind at 1. rewrite Hs. unfold bind at 1. rewrite He.
    reflexivity.
Qed.

(** ** Gap filling *)

Lemma search_points_app (new1 new2 : World F) :
  search_points (new1 ++ new2)%list
  = (search_points new1 ++ search_points new2)%list.
Proof.
  induction new1 as [|ev new1 IH]; simpl; [reflexivity|].
  destruct ev; simpl; rewrite IH; reflexivity.
Qed.

Lemma places_loop_run (start_geo end_geo : Location F) (num_stops : Z)
    (indices : list Z) :
  num_stops + 1 <> 0 ->
  forall (places : list (Location F)) (w : World F),
  exists added new,
    places_loop start_geo end_geo num_stops indices places w
    = (Ok (places ++ added)%list, (new ++ w)%list)
    /\ Forall (fun ev => exists c r, ev = ESearch c 30000 r) new
    /\ search_points new
       = rev (map (fun i => interpolate start_geo end_geo
                              (fdiv (of_int i) (of_int (num_stops + 1))))
                  indices)
    /\ Forall (fun place =>
                 away_from_ends start_geo end_geo place = true
                 /\ exists c r p,
                     In (ESearch c 30000 r) new
                     /\ place = Place p /\ In p r)
              added
    /\ (List.length added <= List.length indices)%nat.
Proof.
  intros Hn. induction indices as [|i rest IH]; intros places w.
  - exists [], []. rewrite app_nil_r. simpl.
    repeat split; try constructor.
  - cbn [places_loop]. unfold int_truediv.
    destruct (num_stops + 1 =? 0) eqn:E;
      [apply Z.eqb_eq in E; contradiction|].
    unfold bind at 1, lift. unfold bind at 1, search_places_in_area.
    fold (interpolate start_geo end_geo
            (fdiv (of_int i) (of_int (num_stops + 1)))).
    set (point := interpolate start_geo end_geo
                    (fdiv (of_int i) (of_int (num_stops + 1)))).
    set (nearby := search_places w point 30000).
    assert (Hextra : exists extra,
               match nearby with
               | [] => places
               | _ :: _ =>
                   match find (away_from_ends start_geo end_geo)
                              (map Place nearby) with
                   | Some place => (places ++ [place])%list
                   | None => places
                   end
               end = (places ++ extra)%list
               /\ (List.length extra <= 1)%nat
               /\ Forall (fun place =>
                            away_from_ends start_geo end_geo place = true
                            /\ exists p, place = Place p /\ In p nearby)
                         extra).
    { destruct nearby as [|p0 ps] eqn:Hnear.
      - exists []. rewrite app_nil_r. repeat split; simpl; auto.
      - destruct (find (away_from_ends start_geo end_geo)
                       (map Place (p0 :: ps))) as [place|] eqn:Hfind.
        + exists [place]. split; [reflexivity|]. split; [simpl; lia|].
          apply find_some in Hfind. destruct Hfind as [Hin Haway].
          apply in_map_iff in Hin. destruct Hin as (p & <- & Hp).
          constructor; [|constructor].
          split; [exact Haway|]. exists p. split; [reflexivity|exact Hp].
        + exists []. rewrite app_nil_r. repeat split; simpl; auto. }
    destruct Hextra as (extra & Hp & Hlen & Hall).
    cbv zeta. rewrite Hp.
    destruct (IH (places ++ extra)%list (ESearch point 30000 nearby :: w))
      as (added & new & Hrun & Hnew & Hpoints & Hadded & Hla).
    exists (extra ++ added)%list, (new ++ [ESearch point 30000 nearby])%list.
    split; [rewrite Hrun, <- !app_assoc; reflexivity|].
    split; [|split; [|split]].
    + apply Forall_app. split; [exact Hnew|].
      constructor; [|constructor]. exists point, nearby. reflexivity.
    + rewrite search_points_app, Hpoints. reflexivity.
    + apply Forall_app. split.
      * eapply Forall_impl; [|exact Hall].
        intros place (Haway & p & -> & Hin). split; [exact Haway|].
        exists point, nearby, p. split; [|split; auto].
        apply in_or_app. right. left. reflexivity.
      * eapply Forall_impl; [|exact Hadded].
        intros place (Haway & c & r & q & Hin & -> & Hq).
        split; [exact Haway|]. exists c, r, q.
        split; [|split; auto]. apply in_or_app. left. exact Hin.
    + rewrite length_app. simpl. lia.
Qed.

(** X8. [_find_places_along_route] never raises, whatever [num_stops] is.
    It makes [max(num_stops, 0)] place searches and nothing else, each with
    radius 30000, the [i]-th one at the point [i / (num_stops + 1)] of the
    way from start to end; it returns at most one place per search, and
    every place it returns was found by one of these searches and is more
    than 10000 away from both the start and the end. *)
Theorem _find_places_along_route_searches (start_geo end_geo : Location F)
    (num_stops : Z) (w : World F) :
  exists stops new,
    _find_places_along_route start_geo end_geo num_stops w
    = (Ok stops, (new ++ w)%list)
    /\ List.length new = Z.to_nat num_stops
    /\ Forall (fun ev => exists c r, ev = ESearch c 30000 r) new
    /\ rev (search_points new)
       = map (fun i => interpolate start_geo end_geo
                         (fdiv (of_int i) (of_int (num_stops + 1))))
             (py_range 1 (num_stops + 1))
    /\ (List.length stops <= List.length new)%nat
    /\ Forall (fun place =>
                 fltb (of_int 10000) (_calculate_distance place start_geo)
                 = true
                 /\ fltb (of_int 10000) (_calculate_distance place end_geo)
                    = true
                 /\ exists c r p,
                     In (ESearch c 30000 r) new
                     /\ place = Place p /\ In p r)
              stops.
Proof.
  unfold _find_places_along_route.
  destruct (Z.eq_dec (num_stops + 1) 0) as [Hz|Hnz].
  - (* [range(1, 0)] is empty *)
    replace num_stops with (-1) by lia. exists [], []. simpl.
    repeat split; constructor.
  - destruct (places_loop_run start_geo end_geo num_stops
                (py_range 1 (num_stops + 1)) Hnz [] w)
      as (added & new & Hrun & Hnew & Hpoints & Hadded & Hlen).
    exists added, new. simpl in Hrun. split; [exact Hrun|].
    assert (Hcount : List.length new
                     = List.length (py_range 1 (num_stops + 1))).
    { clear - Hnew Hpoints.
      assert (H : List.length (search_points new) = List.length new).
      { clear - Hnew.
        induction Hnew as [|ev l (c & r & ->) _ IH]; simpl;
          [reflexivity | rewrite IH; reflexivity]. }
      rewrite <- H, Hpoints, length_rev, length_map. reflexivity. }
    rewrite py_range_length in Hcount.
    split; [exact Hcount|]. split; [exact Hnew|].
    split; [rewrite Hpoints; apply rev_involutive|].
    split; [rewrite Hcount, <- py_range_length; exact Hlen|].
    eapply Forall_impl; [|exact Hadded].
    intros place (Haway & Hfound). unfold away_from_ends in Haway.
    apply andb_true_iff in Haway. destruct Haway as [H1 H2].
    repeat split; assumption.
Qed.

(** ** The constraints are tried in order *)

Lemma geocode_requests_app (new1 new2 : World F) :
  geocode_requests (new1 ++ new2)%list
  = (geocode_requests new1 ++ geocode_requests new2)%list.
Proof.
  induction new1 as [|ev new1 IH]; simpl; [reflexivity|].
  destruct ev; simpl; rewrite IH; reflexivity.
Qed.

Lemma geocode_location_requests (location : string) (w : World F) :
  exists r new,
    geocode_location location w = (r, (new ++ w)%list)
    /\ geocode_requests new = [location].
Proof.
  rewrite geocode_location_eq.
  destruct (client_geocode w location) as [[|g rest]|e].
  - eexists. eexists [_; _]. split; reflexivity.
  - eexists. eexists [_]. split; reflexivity.
  - eexists. eexists [_; _]. split; reflexivity.
Qed.

Lemma constraint_loop_order (start_geo end_geo : Location F) (max_stops : Z)
    (constraint_locations : list string) :
  forall (constraint_stops : list (Location F)) (w : World F),
    Z.of_nat (List.length constraint_stops) < Z.max max_stops 1 ->
    exists stops new k,
      constraint_loop start_geo end_geo max_stops constraint_locations
                      constraint_stops w
      = (Ok stops, (new ++ w)%list)
      /\ (k <= List.length constraint_locations)%nat
      /\ rev (geocode_requests new) = firstn k constraint_locations
      /\ (Z.of_nat (List.length stops) < max_stops ->
          k = List.length constraint_locations)
      /\ Z.of_nat (List.length stops) <= Z.max max_stops 1.
Proof.
  induction constraint_locations as [|location rest IH]; intros acc w Hacc.
  - exists acc, [], 0%nat. simpl. repeat split; lia.
  - rewrite constraint_loop_step.
    destruct (geocode_location_requests location w)
      as (r & new0 & Hgeo & Hreq).
    rewrite Hgeo.
    assert (Hcont : forall acc' extra,
               Z.of_nat (List.length acc') < Z.max max_stops 1 ->
               geocode_requests extra = [] ->
               exists stops new k,
                 constraint_loop start_geo end_geo max_stops rest acc'
                                 (extra ++ new0 ++ w)%list
                 = (Ok stops, (new ++ w)%list)
                 /\ (k <= List.length (location :: rest))%nat
                 /\ rev (geocode_requests new)
                    = firstn k (location :: rest)
                 /\ (Z.of_nat (List.length stops) < max_stops ->
                     k = List.length (location :: rest))
                 /\ Z.of_nat (List.length stops) <= Z.max max_stops 1).
    { intros acc' extra Hacc' Hextra.
      destruct (IH acc' (extra ++ new0 ++ w)%list Hacc')
        as (stops & new & k & Hrun & Hk & Hord & Hall & Hlen).
      exists stops, (new ++ extra ++ new0)%list, (S k).
      rewrite Hrun, <- !app_assoc. split; [reflexivity|].
      rewrite !geocode_requests_app, Hextra, Hreq, !rev_app_distr.
      simpl. rewrite Hord. simpl in *. repeat split; lia. }
    destruct r as [g|e].
    + destruct (_is_location_reasonable start_geo end_geo (Geocoded g)).
      * cbv zeta.
        destruct (Z.of_nat (List.length (acc ++ [Geocoded g])) >=? max_stops)
          eqn:Hfull.
        -- exists (acc ++ [Geocoded g])%list, new0, 1%nat.
           split; [reflexivity|]. rewrite Hreq. simpl.
           rewrite Z.geb_leb in Hfull. apply Z.leb_le in Hfull.
           rewrite length_app in *. simpl in *.
           repeat split; try lia.
        -- apply (Hcont (acc ++ [Geocoded g])%list []); [|reflexivity].
           rewrite Z.geb_leb in Hfull. apply Z.leb_gt in Hfull. lia.
      * apply (Hcont acc []); [exact Hacc | reflexivity].
    + apply (Hcont acc [constraint_warning location e]);
        [exact Hacc | reflexivity].
Qed.

(** X9. [_process_constraint_locations] sends the constraints to the
    geocoder one by one in the order given and nothing else; it stops
    early only when the list of accepted stops has reached [max_stops], so
    a result shorter than [max_stops] means every constraint was tried.
    The result has at most [max(max_stops, 1)] stops: the length is tested
    after a stop is added, so one stop is accepted even for
    [max_stops <= 0]. *)
Theorem constraints_are_tried_in_order
    (constraint_locations : list string) (start_geo end_geo : Location F)
    (max_stops : Z) (w : World F) :
  exists stops new k,
    _process_constraint_locations constraint_locations start_geo end_geo
                                  max_stops w
    = (Ok stops, (new ++ w)%list)
    /\ (k <= List.length constraint_locations)%nat
    /\ rev (geocode_requests new) = firstn k constraint_locations
    /\ (Z.of_nat (List.length stops) < max_stops ->
        rev (geocode_requests new) = constraint_locations)
    /\ Z.of_nat (List.length stops) <= Z.max max_stops 1.
Proof.
  unfold _process_constraint_locations.
  destruct (constraint_loop_order start_geo end_geo max_stops
              constraint_locations [] w ltac:(simpl; lia))
    as (stops & new & k & Hrun & Hk & Hord & Hall & Hlen).
  exists stops, new, k. repeat split; try assumption.
  intros H. rewrite Hord, (Hall H). apply firstn_all.
Qed.

(** ** The travel legs follow the route *)

Lemma make_suggestion_joins (current_loc next_loc : Location F)
    (directions : Route F) (suggestion : TravelLeg F) :
  make_suggestion current_loc next_loc directions = Ok suggestion ->
  leg_joins suggestion current_loc next_loc.
Proof.
  unfold make_suggestion. intros H.
  destruct (route_legs directions) as [legs|]; simpl in H;
    [|discriminate H].
  destruct (json_first legs) as [leg|]; simpl in H; [|discriminate H].
  destruct (json_get leg "distance" (JObj [])) as [d|]; simpl in H;
    [|discriminate H].
  destruct (json_get d "text" (JStr "Unknown")) as [dt|]; simpl in H;
    [|discriminate H].
  destruct (json_get leg "duration" (JObj [])) as [u|]; simpl in H;
    [|discriminate H].
  destruct (json_get u "text" (JStr "Unknown")) as [ut|]; simpl in H;
    [|discriminate H].
  inversion H. repeat split.
Qed.

Lemma suggestions_loop_follow (locations : list (Location F)) :
  forall (suggestions legs : list (TravelLeg F)) (w w' : World F),
    suggestions_loop locations suggestions w = (Ok legs, w') ->
    exists added pairs,
      legs = (suggestions ++ added)%list
      /\ subsequence pairs (consecutive_pairs locations)
      /\ Forall2 (fun leg pair => leg_joins leg (fst pair) (snd pair))
                 added pairs.
Proof.
  induction locations as [|a rest IH]; intros acc legs w w' E.
  - apply ret_ok in E. destruct E as [-> _].
    exists [], []. rewrite app_nil_r. repeat split; constructor.
  - destruct rest as [|b rest'].
    + apply ret_ok in E. destruct E as [-> _].
      exists [], []. rewrite app_nil_r. repeat split; constructor.
    + rewrite suggestions_loop_step in E. cbv zeta in E.
      destruct (client_directions w (coord_str a) (coord_str b))
        as [result|e]; [|discriminate E].
      change (consecutive_pairs (a :: b :: rest'))
        with ((a, b) :: consecutive_pairs (b :: rest')).
      destruct (has_legs (first_route result)).
      * destruct (make_suggestion a b (first_route result)) as [s|e] eqn:Hs;
          [|discriminate E].
        apply IH in E. destruct E as (added & pairs & -> & Hsub & Hall).
        exists (s :: added), ((a, b) :: pairs). rewrite <- app_assoc.
        split; [reflexivity|]. split; [constructor; exact Hsub|].
        constructor; [|exact Hall].
        apply make_suggestion_joins in Hs. exact Hs.
      * apply IH in E. destruct E as (added & pairs & -> & Hsub & Hall).
        exists added, pairs. split; [reflexivity|].
        split; [constructor; exact Hsub | exact Hall].
Qed.

(** X23. The travel legs of a returned itinerary follow the route: there
    are consecutive pairs of locations, taken in route order with some
    possibly left out, such that the legs are, one by one, the driving
    legs between the two locations of these pairs, from the formatted
    address of the first to that of the second, with the directions link
    between these two addresses. *)
Theorem travel_legs_follow_the_route
    (start_location end_location : string) (start_date end_date : datetime)
    (constraint_locations : option (list string)) (max_stops min_stay : Z)
    (w w' : World F) (it : Itinerary F) :
  generate_itinerary start_location end_location start_date end_date
                     constraint_locations max_stops min_stay w
  = (Ok it, w') ->
  exists pairs,
    subsequence pairs (consecutive_pairs (it_locations it))
    /\ Forall2 (fun leg pair => leg_joins leg (fst pair) (snd pair))
               (it_travel_suggestions it) pairs.
Proof.
  intros E. apply generate_itinerary_ok in E.
  destruct E as (sg & eg & stops & w1 & w2 & _ & _ & _ & _ & _ & Hlegs).
  apply suggestions_loop_follow in Hlegs.
  destruct Hlegs as (added & pairs & Heq & Hsub & Hall).
  simpl in Heq. rewrite Heq. exists pairs. split; assumption.
Qed.

(** X24. A directions answer whose "legs" entry is an empty list, or
    whose first leg holds something else than a dict under "distance",
    is not replaced by "Unknown": the lookup of the first leg raises
    [IndexError], the lookup of the text raises [AttributeError], and the
    assembly stops with that error. *)
Theorem malformed_legs_abort_the_assembly
    (current_loc next_loc : Location F) (rest : list (Location F))
    (suggestions : list (TravelLeg F)) (w : World F)
    (result : list (Route F)) :
  client_directions w (coord_str current_loc) (coord_str next_loc)
  = Ok result ->
  let w1 := EDirections (coord_str current_loc) (coord_str next_loc)
                        (Ok result) :: w in
  (dict_lookup "legs" (first_route result) = Some (JArr []) ->
   suggestions_loop (current_loc :: next_loc :: rest) suggestions w
   = (Raise IndexError, w1))
  /\ (forall leg others v,
         dict_lookup "legs" (first_route result)
         = Some (JArr (JObj leg :: others)) ->
         dict_lookup "distance" leg = Some v ->
         is_dict v = false ->
         suggestions_loop (current_loc :: next_loc :: rest) suggestions w
         = (Raise AttributeError, w1)).
Proof.
  intros Hres w1.
  assert (Hlegs : forall v, dict_lookup "legs" (first_route result) = Some v ->
                            has_legs (first_route result) = true).
  { intros v Hv. unfold has_legs. rewrite Hv.
    destruct (first_route result); [discriminate Hv | reflexivity]. }
  split.
  - intros Hv. rewrite suggestions_loop_step. cbv zeta.
    rewrite Hres, (Hlegs _ Hv).
    unfold make_suggestion, route_legs. rewrite Hv. reflexivity.
  - intros leg others v Hv Hd Hdict. rewrite suggestions_loop_step.
    cbv zeta. rewrite Hres, (Hlegs _ Hv).
    unfold make_suggestion, route_legs. rewrite Hv. simpl.
    rewrite Hd. simpl.
    destruct v; try discriminate Hdict; reflexivity.
Qed.

(** ** The stops of an itinerary *)

Context {L : PyFloatLaws F}.

Lemma gap_stage_away (start_geo end_geo : Location F) (remaining_stops : Z)
    (w w' : World F) (stops : list (Location F)) :
  gap_stage start_geo end_geo remaining_stops w = (Ok stops, w') ->
  Forall (fun stop => is_place stop = true
                      /\ away_from_ends start_geo end_geo stop = true)
         stops.
Proof.
  unfold gap_stage, _find_places_along_route. intros E.
  destruct (remaining_stops >? 0) eqn:Hrem.
  - apply Z.gtb_lt in Hrem.
    assert (Hnz : remaining_stops + 1 <> 0) by lia.
    destruct (places_loop_run start_geo end_geo remaining_stops
                (py_range 1 (remaining_stops + 1)) Hnz [] w)
      as (added & new & Hrun & _ & _ & Hadded & _).
    rewrite Hrun in E. inversion E; subst. simpl.
    eapply Forall_impl; [|exact Hadded].
    intros stop (Haway & c & r & p & _ & -> & _).
    split; [reflexivity | exact Haway].
  - apply ret_ok in E. destruct E as [-> _]. constructor.
Qed.

Lemma _find_intermediate_stops_order (start_geo end_geo : Location F)
    (constraint_locations : option (list string))
    (max_stops total_days min_stay : Z) (w w' : World F)
    (stops : list (Location F)) :
  _find_intermediate_stops start_geo end_geo constraint_locations
                           max_stops total_days min_stay w
  = (Ok stops, w') ->
  StronglySorted (ascending (position start_geo end_geo)) stops
  /\ Forall (fun stop =>
               if is_place stop
               then away_from_ends start_geo end_geo stop = true
               else _is_location_reasonable start_geo end_geo stop = true)
            stops.
Proof.
  intros E.
  destruct (_find_intermediate_stops_length _ _ _ _ _ _ _ _ _ E)
    as [Hm _].
  destruct (Z_le_gt_dec (capacity max_stops total_days min_stay) 0)
    as [Hle|Hgt].
  { rewrite _find_intermediate_stops_no_capacity in E by assumption.
    inversion E; subst. split; constructor. }
  rewrite _find_intermediate_stops_stages in E by (auto; lia).
  cbv zeta in E.
  set (cap := capacity max_stops total_days min_stay) in *.
  apply bind_ok in E. destruct E as (route_info & w1 & _ & E).
  apply bind_ok in E. destruct E as (cs & w2 & Hcs & E).
  apply bind_ok in E. destruct E as (rs & w3 & Hrs & E).
  apply bind_ok in E. destruct E as (ordered & w4 & Hsort & E).
  apply ret_ok in E. destruct E as [-> ->].
  apply lift_ok in Hsort. destruct Hsort as [Hsort ->].
  apply constraint_stage_spec in Hcs; [|lia].
  destruct Hcs as (new_c & -> & Hin & _ & Hlen_c).
  pose proof (gap_stage_away _ _ _ _ _ _ Hrs) as Haway.
  apply gap_stage_spec in Hrs.
  destruct Hrs as (new_g & -> & _ & _ & Hlen_g).
  pose proof (sorted_perm _ _ _ Hsort) as Hperm.
  assert (Hlen : Z.of_nat (List.length ordered) <= cap).
  { rewrite <- (Permutation_length Hperm), length_app. lia. }
  rewrite (py_slice_to_all _ _ Hlen).
  unfold _sort_stops_by_route in Hsort.
  rewrite (sorted_eq _ (position start_geo end_geo)) in Hsort
    by (intros x _; apply route_position_eq).
  inversion Hsort as [Hordered]. split; [apply sort_by_sorted|].
  rewrite Hordered. apply Forall_forall. intros stop Hstop.
  apply (Permutation_in _ (Permutation_sym Hperm)) in Hstop.
  apply in_app_or in Hstop. destruct Hstop as [Hstop|Hstop].
  - destruct (Hin _ Hstop) as (g & -> & _ & Hr). exact Hr.
  - rewrite Forall_forall in Haway. destruct (Haway _ Hstop) as [-> Ha].
    exact Ha.
Qed.


End MoreProperties.

(** * Properties of the links and of the command line helpers *)

(** ** The directions link *)

Lemma replace_space_plus_no_space (s : string) :
  ~ In " "%char (list_ascii_of_string (replace_space_plus s)).
Proof.
  induction s as [|c s IH]; simpl; [tauto|].
  intros [H|H]; [|exact (IH H)].
  destruct (Ascii.eqb c " "%char) eqn:E; [discriminate H|].
  apply Ascii.eqb_neq in E. congruence.
Qed.

Lemma replace_space_plus_length (s : string) :
  String.length (replace_space_plus s) = String.length s.
Proof. induction s as [|c s IH]; simpl; [|rewrite IH]; reflexivity. Qed.

Lemma list_ascii_of_string_app (a b : string) :
  list_ascii_of_string (a ++ b)
  = (list_ascii_of_string a ++ list_ascii_of_string b)%list.
Proof. induction a as [|c a IH]; simpl; [|rewrite IH]; reflexivity. Qed.

Lemma join_without (c : ascii) (sep : string) (l : list string) :
  ~ In c (list_ascii_of_string sep) ->
  Forall (fun x => ~ In c (list_ascii_of_string x)) l ->
  ~ In c (list_ascii_of_string (join sep l)).
Proof.
  intros Hsep Hall. induction Hall as [|x l Hx Hl IH]; simpl; [tauto|].
  destruct l as [|y l]; [exact Hx|].
  rewrite !list_ascii_of_string_app. intros H.
  apply in_app_or in H. destruct H as [H|H]; [exact (Hx H)|].
  apply in_app_or in H. destruct H as [H|H]; [exact (Hsep H)|].
  exact (IH H).
Qed.

(** X11. The directions link never contains a space, whatever the
    addresses and waypoints are; it starts with the fixed base, and
    without waypoints ([None] or the empty list) it is the link from the
    origin to the destination that the itinerary uses. *)
Theorem directions_url_has_no_space (origin destination : string)
    (waypoints : option (list string)) :
  ~ In " "%char
       (list_ascii_of_string
          (get_directions_url_via origin destination waypoints))
  /\ String.prefix "https://www.google.com/maps/dir/"
                   (get_directions_url_via origin destination waypoints)
     = true
  /\ get_directions_url_via origin destination None
     = get_directions_url origin destination
  /\ get_directions_url_via origin destination (Some [])
     = get_directions_url origin destination.
Proof.
  split; [|split; [|split; reflexivity]].
  - unfold get_directions_url_via. cbv zeta.
    rewrite list_ascii_of_string_app. intros H.
    apply in_app_or in H. destruct H as [H|H].
    + simpl in H.
      repeat (destruct H as [H|H]; [discriminate H|]). exact H.
    + revert H. apply join_without.
      * simpl. intros [H|[]]. discriminate H.
      * apply Forall_forall. intros x Hx. apply in_map_iff in Hx.
        destruct Hx as (y & <- & _). apply replace_space_plus_no_space.
  - unfold get_directions_url_via. cbv zeta.
    generalize (join "/"
                  (map replace_space_plus
                     match waypoints with
                     | Some (p :: ps) =>
                         ([origin] ++ (p :: ps) ++ [destination])%list
                     | _ => [origin; destination]
                     end)).
    intros rest. apply prefix_correct. simpl.
    destruct rest; reflexivity.
Qed.

(** ** [parse_locations] *)

Lemma lstrip_head (s : string) (c : ascii) (r : string) :
  lstrip s = String c r -> py_isspace c = false.
Proof.
  induction s as [|d s IH]; simpl; [discriminate|].
  destruct (py_isspace d) eqn:E; [exact IH|].
  intros H. inversion H; subst. exact E.
Qed.

Lemma rstrip_idem (s : string) : rstrip (rstrip s) = rstrip s.
Proof.
  induction s as [|c s IH]; [reflexivity|].
  cbn [rstrip]. destruct (rstrip s) as [|d r] eqn:E.
  - destruct (py_isspace c) eqn:Ec; [reflexivity|].
    cbn [rstrip]. rewrite Ec. reflexivity.
  - cbn [rstrip]. cbn [rstrip] in IH. rewrite IH. reflexivity.
Qed.

Lemma rstrip_head (c : ascii) (s : string) :
  py_isspace c = false -> exists r, rstrip (String c s) = String c r.
Proof.
  intros Hc. cbn [rstrip]. destruct (rstrip s) as [|d r].
  - rewrite Hc. eexists. reflexivity.
  - eexists. reflexivity.
Qed.

Lemma strip_idem (s : string) : strip (strip s) = strip s.
Proof.
  unfold strip. destruct (lstrip s) as [|c t] eqn:E; [reflexivity|].
  pose proof (lstrip_head _ _ _ E) as Hc.
  destruct (rstrip_head c t Hc) as [r Hr].
  rewrite Hr. cbn [lstrip]. rewrite Hc, <- Hr. apply rstrip_idem.
Qed.

Lemma lstrip_chars (a : ascii) (s : string) :
  In a (list_ascii_of_string (lstrip s)) -> In a (list_ascii_of_string s).
Proof.
  induction s as [|c s IH]; simpl; [tauto|].
  destruct (py_isspace c); [intros H; right; exact (IH H)|].
  simpl. tauto.
Qed.

Lemma rstrip_chars (a : ascii) (s : string) :
  In a (list_ascii_of_string (rstrip s)) -> In a (list_ascii_of_string s).
Proof.
  induction s as [|c s IH]; [tauto|].
  cbn [rstrip]. destruct (rstrip s) as [|d r].
  - destruct (py_isspace c); simpl; tauto.
  - simpl in *. tauto.
Qed.

Lemma strip_chars (a : ascii) (s : string) :
  In a (list_ascii_of_string (strip s)) -> In a (list_ascii_of_string s).
Proof. intros H. apply lstrip_chars, rstrip_chars. exact H. Qed.

Lemma split_on_pieces (sep : ascii) (s : string) :
  Forall (fun piece => ~ In sep (list_ascii_of_string piece))
         (split_on sep s).
Proof.
  induction s as [|c s IH]; cbn [split_on].
  - constructor; [simpl; tauto | constructor].
  - destruct (Ascii.eqb c sep) eqn:E.
    + constructor; [simpl; tauto | exact IH].
    + apply Ascii.eqb_neq in E.
      destruct (split_on sep s) as [|piece pieces].
      * constructor; [|constructor]. simpl. intros [H|[]]. congruence.
      * inversion IH; subst. constructor; [|assumption].
        simpl. intros [H|H]; [congruence | contradiction].
Qed.

Lemma split_on_single (sep : ascii) (x : string) :
  ~ In sep (list_ascii_of_string x) -> split_on sep x = [x].
Proof.
  induction x as [|c x IH]; intros H; [reflexivity|].
  cbn [split_on]. simpl in H.
  destruct (Ascii.eqb c sep) eqn:E;
    [apply Ascii.eqb_eq in E; tauto|].
  rewrite IH by tauto. reflexivity.
Qed.

Lemma split_on_app (sep : ascii) (x rest : string) :
  ~ In sep (list_ascii_of_string x) ->
  split_on sep (x ++ String sep rest) = x :: split_on sep rest.
Proof.
  induction x as [|c x IH]; intros H.
  - simpl. rewrite Ascii.eqb_refl. reflexivity.
  - simpl in H. change ((String c x ++ String sep rest))
      with (String c (x ++ String sep rest)).
    cbn [split_on].
    destruct (Ascii.eqb c sep) eqn:E;
      [apply Ascii.eqb_eq in E; tauto|].
    rewrite IH by tauto. reflexivity.
Qed.

Lemma split_on_join (sep : ascii) (pieces : list string) :
  pieces <> [] ->
  Forall (fun piece => ~ In sep (list_ascii_of_string piece)) pieces ->
  split_on sep (join (String sep EmptyString) pieces) = pieces.
Proof.
  intros Hne Hall. induction Hall as [|x l Hx Hl IH]; [contradiction|].
  destruct l as [|y l]; [apply split_on_single; exact Hx|].
  change (join (String sep "") (x :: y :: l))
    with (x ++ String sep (join (String sep "") (y :: l))).
  rewrite split_on_app by exact Hx.
  rewrite IH by discriminate. reflexivity.
Qed.

Lemma parse_locations_eq (locations_str : string) :
  parse_locations locations_str
  = map strip (filter (fun loc => nonempty (strip loc))
                      (split_on ","%char locations_str)).
Proof.
  unfold parse_locations. destruct locations_str; reflexivity.
Qed.


Lemma join_comma_pieces (pieces : list string) :
  Forall (fun piece => ~ In ","%char (list_ascii_of_string piece)) pieces ->
  parse_locations (join "," pieces)
  = map strip (filter (fun loc => nonempty (strip loc)) pieces).
Proof.
  intros Hall. rewrite parse_locations_eq.
  destruct pieces as [|x l]; [reflexivity|].
  rewrite (split_on_join ","%char) by (auto; discriminate). reflexivity.
Qed.

Lemma join_comma_space (x : string) (rest : list string) :
  join ", " (x :: rest) = join "," (x :: map (String " "%char) rest).
Proof.
  revert x. induction rest as [|y l IH]; intros x; [reflexivity|].
  change (join ", " (x :: y :: l))
    with (x ++ String ","%char (String " "%char (join ", " (y :: l)))).
  rewrite IH.
  change (join "," (x :: map (String " "%char) (y :: l)))
    with (x ++ String ","%char
            (join "," (String " "%char y :: map (String " "%char) l))).
  destruct (map (String " "%char) l); reflexivity.
Qed.

Lemma padded_strip (rest : list string) :
  map strip (filter (fun loc => nonempty (strip loc))
                    (map (String " "%char) rest))
  = map strip (filter (fun loc => nonempty (strip loc)) rest).
Proof.
  induction rest as [|y l IH]; [reflexivity|].
  cbn [map filter].
  change (strip (String " "%char y)) with (strip y).
  destruct (nonempty (strip y)); cbn [map]; rewrite IH; reflexivity.
Qed.


(** ** [validate_dates] *)

Lemma delta_days_ge_1 (a b : datetime) :
  1 <= delta_days b a <->
  micros_per_day
  <= (toordinal b - toordinal a) * micros_per_day
     + (micro_of_day b - micro_of_day a).
Proof.
  unfold delta_days, micros_per_day.
  set (x := (toordinal b - toordinal a) * 86400000000
            + (micro_of_day b - micro_of_day a)).
  pose proof (Z.div_mod x 86400000000 ltac:(lia)).
  pose proof (Z.mod_pos_bound x 86400000000 ltac:(lia)).
  lia.
Qed.


(** * Properties of the place search *)

Section PlaceSearchProperties.

Context {F : Type} `{PF : PyFloat F}.

Lemma place_details_search_type (place_type : string) (place : RawPlace F)
    (details : PlaceResult F) :
  place_details place_type place = Ok details ->
  place_search_type details = place_type.
Proof.
  unfold place_details, subscript. intros H.
  destruct (raw_name place); simpl in H; [|discriminate H].
  destruct (raw_place_id place); simpl in H; [|discriminate H].
  destruct (raw_geometry place) as [[loc|]|]; simpl in H;
    try discriminate H.
  destruct (raw_lat loc); simpl in H; [|discriminate H].
  destruct (raw_lng loc); simpl in H; [|discriminate H].
  inversion H. reflexivity.
Qed.

Lemma append_details_spec (place_type : string) (places : list (RawPlace F)) :
  forall all_places,
  exists added,
    fst (append_details place_type places all_places)
    = (all_places ++ added)%list
    /\ (List.length added <= List.length places)%nat
    /\ Forall (fun d => place_search_type d = place_type) added.
Proof.
  induction places as [|place rest IH]; intros acc.
  - exists []. rewrite app_nil_r. simpl. repeat split; auto.
  - cbn [append_details].
    destruct (place_details place_type place) as [d|e] eqn:Hd.
    + destruct (IH (acc ++ [d])%list) as (added & Heq & Hlen & Hall).
      exists (d :: added). rewrite Heq, <- app_assoc.
      split; [reflexivity|]. split; [simpl; lia|].
      constructor; [|exact Hall].
      eapply place_details_search_type. exact Hd.
    + exists []. rewrite app_nil_r. simpl. repeat split; auto; lia.
Qed.

Lemma gather_places_spec (calls : list (string * NearbyAnswer F)) :
  forall all_places warnings,
  exists added,
    fst (gather_places calls all_places warnings)
    = (all_places ++ added)%list
    /\ (List.length added <= 5 * List.length calls)%nat
    /\ Forall (fun d => In (place_search_type d) (map fst calls)) added.
Proof.
  induction calls as [|[place_type answer] rest IH]; intros acc warnings.
  - exists []. rewrite app_nil_r. simpl. repeat split; auto.
  - cbn [gather_places]. cbv zeta.
    assert (Hskip : forall ws,
               exists added,
                 fst (gather_places rest acc ws) = (acc ++ added)%list
                 /\ (List.length added
                     <= 5 * List.length ((place_type, answer) :: rest))%nat
                 /\ Forall (fun d => In (place_search_type d)
                                        (map fst ((place_type, answer)
                                                    :: rest)))
                           added).
    { intros ws. destruct (IH acc ws) as (added & Heq & Hlen & Hall).
      exists added. split; [exact Heq|]. split; [simpl; lia|].
      eapply Forall_impl; [|exact Hall]. intros d Hd. right. exact Hd. }
    destruct answer as [places|e]; [|apply Hskip].
    destruct (append_details_spec place_type
                (firstn 5 (get_or places [])) acc)
      as (here & Hhere & Hlen_here & Hall_here).
    destruct (append_details place_type (firstn 5 (get_or places [])) acc)
      as [acc' err].
    simpl in Hhere. subst acc'.
    assert (Hcont : forall ws,
               exists added,
                 fst (gather_places rest (acc ++ here)%list ws)
                 = (acc ++ added)%list
                 /\ (List.length added <= 5 * S (List.length rest))%nat
                 /\ Forall (fun d => In (place_search_type d)
                                        (place_type :: map fst rest))
                           added).
    { intros ws.
      destruct (IH (acc ++ here)%list ws) as (added & Heq & Hlen & Hall).
      exists (here ++ added)%list. rewrite Heq, <- app_assoc.
      split; [reflexivity|].
      pose proof (firstn_le_length 5 (get_or places [])).
      split; [rewrite length_app; lia|].
      apply Forall_app. split.
      - eapply Forall_impl; [|exact Hall_here].
        intros d Hd. left. symmetry. exact Hd.
      - eapply Forall_impl; [|exact Hall]. intros d Hd. right. exact Hd. }
    destruct err; apply Hcont.
Qed.

Lemma gather_warnings_spec (calls : list (string * NearbyAnswer F)) :
  forall all_places warnings,
  exists extra,
    snd (gather_places calls all_places warnings)
    = (warnings ++ extra)%list
    /\ (List.length extra <= List.length calls)%nat.
Proof.
  induction calls as [|[place_type answer] rest IH]; intros acc ws.
  - exists []. rewrite app_nil_r. simpl. split; auto.
  - cbn [gather_places]. cbv zeta.
    assert (Hwarn : forall acc' msg,
               exists extra,
                 snd (gather_places rest acc' (ws ++ [msg])%list)
                 = (ws ++ extra)%list
                 /\ (List.length extra <= S (List.length rest))%nat).
    { intros acc' msg.
      destruct (IH acc' (ws ++ [msg])%list) as (extra & Heq & Hlen).
      exists (msg :: extra). rewrite Heq, <- app_assoc.
      split; [reflexivity | simpl; lia]. }
    assert (Hquiet : forall acc',
               exists extra,
                 snd (gather_places rest acc' ws) = (ws ++ extra)%list
                 /\ (List.length extra <= S (List.length rest))%nat).
    { intros acc'. destruct (IH acc' ws) as (extra & Heq & Hlen).
      exists extra. split; [exact Heq | lia]. }
    destruct answer as [places|e]; [|apply Hwarn].
    destruct (append_details place_type (firstn 5 (get_or places [])) acc)
      as [acc' [e|]]; [apply Hwarn | apply Hquiet].
Qed.

Lemma gather_places_fst (calls : list (string * NearbyAnswer F)) :
  forall all_places warnings warnings',
    fst (gather_places calls all_places warnings)
    = fst (gather_places calls all_places warnings').
Proof.
  induction calls as [|[place_type answer] rest IH]; intros acc ws ws'.
  - reflexivity.
  - cbn [gather_places]. cbv zeta.
    destruct answer as [places|e]; [|apply IH].
    destruct (append_details place_type (firstn 5 (get_or places [])) acc)
      as [acc' [e|]]; apply IH.
Qed.

Lemma gather_places_app (calls1 calls2 : list (string * NearbyAnswer F)) :
  forall all_places warnings,
    gather_places (calls1 ++ calls2) all_places warnings
    = gather_places calls2
        (fst (gather_places calls1 all_places warnings))
        (snd (gather_places calls1 all_places warnings)).
Proof.
  induction calls1 as [|[place_type answer] rest IH]; intros acc ws.
  - reflexivity.
  - cbn [app gather_places]. cbv zeta.
    destruct answer as [places|e]; [|apply IH].
    destruct (append_details place_type (firstn 5 (get_or places [])) acc)
      as [acc' [e|]]; apply IH.
Qed.

(** ** One place per identifier *)

Lemma seen_iff (x : string) (seen : list string) :
  existsb (String.eqb x) seen = true <-> In x seen.
Proof.
  rewrite existsb_exists. split.
  - intros (y & Hy & Heq). apply String.eqb_eq in Heq. subst. exact Hy.
  - intros H. exists x. split; [exact H | apply String.eqb_refl].
Qed.

Lemma unique_by_id_spec (places : list (PlaceResult F)) :
  forall seen,
    NoDup (map place_place_id (unique_by_id seen places))
    /\ (forall p, In p (unique_by_id seen places) ->
                  In p places /\ ~ In (place_place_id p) seen)
    /\ (forall p, In p places -> ~ In (place_place_id p) seen ->
                  exists q, In q (unique_by_id seen places)
                            /\ place_place_id q = place_place_id p).
Proof.
  induction places as [|place rest IH]; intros seen.
  - simpl. split; [constructor|]. split; intros p [].
  - cbn [unique_by_id].
    destruct (existsb (String.eqb (place_place_id place)) seen) eqn:E.
    + apply seen_iff in E.
      destruct (IH seen) as (Hnd & Hin & Hall).
      split; [exact Hnd|]. split.
      * intros p Hp. destruct (Hin p Hp). split; [right|]; assumption.
      * intros p [<-|Hp] Hns; [contradiction|]. apply Hall; assumption.
    + assert (Hnew : ~ In (place_place_id place) seen).
      { intros H. apply seen_iff in H. congruence. }
      destruct (IH (place_place_id place :: seen)) as (Hnd & Hin & Hall).
      split; [|split].
      * cbn [map]. constructor; [|exact Hnd].
        intros H. apply in_map_iff in H. destruct H as (q & Hq & Hqin).
        destruct (Hin q Hqin) as [_ Hns]. apply Hns. left.
        symmetry. exact Hq.
      * intros p [<-|Hp]; [split; [left; reflexivity | exact Hnew]|].
        destruct (Hin p Hp) as [H1 H2]. split; [right; exact H1|].
        intros H. apply H2. right. exact H.
      * intros p [<-|Hp] Hns; [exists place; split;
                                 [left; reflexivity | reflexivity]|].
        destruct (string_dec (place_place_id p) (place_place_id place))
          as [Heq|Hne].
        -- exists place. split; [left; reflexivity | symmetry; exact Heq].
        -- destruct (Hall p Hp) as (q & Hq & Hid).
           { intros [H|H]; [apply Hne; symmetry; exact H | exact (Hns H)]. }
           exists q. split; [right; exact Hq | exact Hid].
Qed.

(** ** The descending sort *)

Lemma insert_desc_perm {A : Type} (key : A -> F) (x : A) (l : list A) :
  Permutation (x :: l) (insert_desc key x l).
Proof.
  induction l as [|y l IH]; simpl; [apply Permutation_refl|].
  destruct (fltb (key x) (key y)); [|apply Permutation_refl].
  eapply perm_trans; [apply perm_swap|]. apply perm_skip. exact IH.
Qed.

Lemma sorted_desc_perm {A : Type} (key : A -> F) (l : list A) :
  Permutation l (sorted_desc key l).
Proof.
  induction l as [|x l IH]; simpl; [constructor|].
  eapply perm_trans; [apply perm_skip, IH | apply insert_desc_perm].
Qed.

(** X15. The list returned by [search_places_in_area] has no two places
    with the same [place_id] and loses no identifier: every place gathered
    is represented by a place with its identifier.  It has at most five
    places per place type searched, each place carries one of these place
    types as its [search_type], and at most one warning is logged per
    place type. *)
Theorem search_places_are_unique_and_bounded
    (calls : list (string * NearbyAnswer F)) :
  let found := fst (search_places_in_area_from calls) in
  let warnings := snd (search_places_in_area_from calls) in
  NoDup (map place_place_id found)
  /\ (forall p, In p (fst (gather_places calls [] [])) ->
                exists q, In q found
                          /\ place_place_id q = place_place_id p)
  /\ (List.length found <= 5 * List.length calls)%nat
  /\ Forall (fun p => In (place_search_type p) (map fst calls)) found
  /\ (List.length warnings <= List.length calls)%nat.
Proof.
  unfold search_places_in_area_from.
  destruct (gather_places_spec calls [] []) as (added & Hadd & Hlen & Hall).
  destruct (gather_warnings_spec calls [] []) as (extra & Hextra & Hle).
  destruct (gather_places calls [] []) as [all_places ws].
  simpl in Hadd, Hextra. subst all_places ws. cbn [fst snd].
  destruct (unique_by_id_spec added []) as (Hnd & Hin & Hkeep).
  pose proof (sorted_desc_perm place_rating (unique_by_id [] added)) as Hp.
  split; [|split; [|split; [|split]]].
  - eapply Permutation_NoDup; [apply Permutation_map; exact Hp | exact Hnd].
  - intros p Hp'. destruct (Hkeep p Hp' ltac:(simpl; tauto)) as (q & Hq & Hid).
    exists q. split; [|exact Hid]. eapply Permutation_in; eassumption.
  - rewrite <- (Permutation_length Hp).
    assert (List.length (unique_by_id [] added) <= List.length added)%nat.
    { apply NoDup_incl_length.
      - apply (NoDup_map_inv place_place_id). exact Hnd.
      - intros p Hp'. apply (Hin p Hp'). }
    lia.
  - apply Forall_forall. intros p Hp'.
    apply (Permutation_in _ (Permutation_sym Hp)) in Hp'.
    rewrite Forall_forall in Hall. apply Hall. apply (Hin p Hp').
  - exact Hle.
Qed.

(** ** A failing place type is skipped *)

Lemma search_places_in_area_from_eq (calls : list (string * NearbyAnswer F)) :
  search_places_in_area_from calls
  = (sorted_desc place_rating
       (unique_by_id [] (fst (gather_places calls [] []))),
     snd (gather_places calls [] [])).
Proof.
  unfold search_places_in_area_from.
  destruct (gather_places calls [] []); reflexivity.
Qed.

Lemma append_details_cut (place_type : string)
    (good : list (RawPlace F)) (details : list (PlaceResult F))
    (bad : RawPlace F) (rest : list (RawPlace F)) (e : exn) :
  Forall2 (fun place d => place_details place_type place = Ok d)
          good details ->
  place_details place_type bad = Raise e ->
  forall all_places,
    append_details place_type (good ++ bad :: rest)%list all_places
    = ((all_places ++ details)%list, Some e).
Proof.
  intros Hgood Hbad. induction Hgood as [|g d good details Hg _ IH];
    intros acc.
  - simpl. rewrite Hbad, app_nil_r. reflexivity.
  - cbn [app append_details]. rewrite Hg, IH, <- app_assoc. reflexivity.
Qed.

(** X16. In [search_places_in_area] an error is confined to its place
    type.  A place type whose client call raises adds a warning and
    changes nothing else: the places returned are those returned without
    that call.  A place type answered without results changes nothing at
    all.  A place with a missing key ends the loop of its place type with
    a warning: the places before it are kept, the places after it are
    not looked at, and the next place types are searched as usual. *)
Theorem place_search_errors_are_confined :
  (forall (before after : list (string * NearbyAnswer F))
          (place_type : string) (e : exn),
      fst (search_places_in_area_from
             (before ++ (place_type, Raise e) :: after))
      = fst (search_places_in_area_from (before ++ after))
      /\ In ("Error searching for " ++ place_type ++ ": " ++ exn_str e)
            (snd (search_places_in_area_from
                    (before ++ (place_type, Raise e) :: after))))
  /\ (forall (before after : list (string * NearbyAnswer F))
             (place_type : string),
         search_places_in_area_from
           (before ++ (place_type, Ok None) :: after)
         = search_places_in_area_from (before ++ after)
         /\ search_places_in_area_from
              (before ++ (place_type, Ok (Some [])) :: after)
            = search_places_in_area_from (before ++ after))
  /\ (forall (after : list (string * NearbyAnswer F))
             (place_type : string) (good : list (RawPlace F))
             (details : list (PlaceResult F)) (bad : RawPlace F)
             (rest : list (RawPlace F)) (e : exn)
             (all_places : list (PlaceResult F)) (warnings : list string),
         (List.length good < 5)%nat ->
         Forall2 (fun place d => place_details place_type place = Ok d)
                 good details ->
         place_details place_type bad = Raise e ->
         gather_places
           ((place_type, Ok (Some (good ++ bad :: rest)%list)) :: after)
           all_places warnings
         = gather_places after (all_places ++ details)%list
             (warnings
              ++ [("Error searching for " ++ place_type ++ ": "
                   ++ exn_str e)%string])%list).
Proof.
  split; [|split].
  - intros before after place_type e.
    rewrite !search_places_in_area_from_eq. cbn [fst snd].
    rewrite !gather_places_app. cbn [gather_places]. cbv zeta.
    split.
    + f_equal. f_equal. apply gather_places_fst.
    + match goal with
      | |- In ?m (snd (gather_places after ?acc (?ws ++ [?m])%list)) =>
          destruct (gather_warnings_spec after acc (ws ++ [m])%list)
            as (extra & -> & _)
      end.
      apply in_or_app. left. apply in_or_app. right. left. reflexivity.
  - intros before after place_type.
    rewrite !search_places_in_area_from_eq.
    rewrite !gather_places_app. cbn [gather_places]. cbv zeta.
    simpl. split; reflexivity.
  - intros after place_type good details bad rest e acc ws Hlen Hgood Hbad.
    cbn [gather_places get_or]. cbv zeta.
    assert (Hcut : firstn 5 (good ++ bad :: rest)%list
                   = (good ++ bad :: firstn (4 - List.length good) rest)%list).
    { rewrite firstn_app.
      rewrite firstn_all2 by lia.
      replace (5 - List.length good)%nat
        with (S (4 - List.length good)) by lia.
      reflexivity. }
    rewrite Hcut.
    rewrite (append_details_cut place_type good details bad _ e Hgood Hbad).
    reflexivity.
Qed.

(** ** Best rated first *)

Context {L : PyFloatLaws F}.

Lemma insert_desc_sorted {A : Type} (key : A -> F) (x : A) (l : list A) :
  StronglySorted (not_below key) l ->
  StronglySorted (not_below key) (insert_desc key x l).
Proof.
  induction 1 as [|y l Hs IH Hall]; simpl.
  - constructor; constructor.
  - destruct (fltb (key x) (key y)) eqn:E.
    + constructor; [exact IH|].
      apply (Permutation_Forall (insert_desc_perm key x l)).
      constructor; [|exact Hall].
      unfold not_below. apply fltb_asym. exact E.
    + constructor; [constructor; assumption|].
      constructor; [exact E|].
      eapply Forall_impl; [|exact Hall].
      intros z Hz. unfold not_below in *.
      apply (fltb_negtrans _ _ _ E Hz).
Qed.

Lemma sorted_desc_sorted {A : Type} (key : A -> F) (l : list A) :
  StronglySorted (not_below key) (sorted_desc key l).
Proof.
  induction l as [|x l IH]; simpl; [constructor|].
  apply insert_desc_sorted. exact IH.
Qed.

Lemma insert_desc_stable {A : Type} (key : A -> F) (k : F) (x : A)
    (l : list A) :
  filter (fun y => feqb (key y) k) (insert_desc key x l)
  = filter (fun y => feqb (key y) k) (x :: l).
Proof.
  induction l as [|y l IH]; [reflexivity|].
  cbn [insert_desc]. destruct (fltb (key x) (key y)) eqn:E; [|reflexivity].
  cbn [filter] in *. rewrite IH.
  destruct (feqb (key y) k) eqn:Ey; [|reflexivity].
  destruct (feqb (key x) k) eqn:Ex; [|reflexivity].
  apply feqb_eq in Ey, Ex. rewrite Ey, Ex, fltb_irrefl in E.
  discriminate E.
Qed.

Lemma sorted_desc_stable {A : Type} (key : A -> F) (k : F) (l : list A) :
  filter (fun y => feqb (key y) k) (sorted_desc key l)
  = filter (fun y => feqb (key y) k) l.
Proof.
  induction l as [|x l IH]; [reflexivity|].
  cbn [sorted_desc]. rewrite insert_desc_stable. cbn [filter].
  rewrite IH. reflexivity.
Qed.

Lemma find_in_sorted {A : Type} (key : A -> F) (f : A -> bool)
    (l : list A) (p : A) :
  StronglySorted (not_below key) l ->
  find f l = Some p ->
  forall q, In q l -> f q = true -> fltb (key p) (key q) = false.
Proof.
  induction 1 as [|y l Hs IH Hall]; intros Hfind q Hq Hfq.
  - destruct Hq.
  - cbn [find] in Hfind. destruct (f y) eqn:Hy.
    + inversion Hfind; subst p. destruct Hq as [<-|Hq].
      * apply fltb_irrefl.
      * rewrite Forall_forall in Hall. exact (Hall q Hq).
    + destruct Hq as [<-|Hq]; [congruence|]. apply IH; assumption.
Qed.

(** X17. The places returned by [search_places_in_area] are in descending
    order of rating, places with equal ratings keeping the order in which
    they were first found.  So the first place of the list that passes a
    test (as [_find_places_along_route] takes the first one far enough
    from both ends) is rated at least as high as every place of the list
    that passes it. *)
Theorem search_places_best_rated_first
    (calls : list (string * NearbyAnswer F)) :
  let found := fst (search_places_in_area_from calls) in
  StronglySorted (not_below place_rating) found
  /\ (forall k,
         filter (fun p => feqb (place_rating p) k) found
         = filter (fun p => feqb (place_rating p) k)
                  (unique_by_id [] (fst (gather_places calls [] []))))
  /\ (forall (test : Location F -> bool) (p : PlaceResult F),
         find test (map Place found) = Some (Place p) ->
         forall q, In q found -> test (Place q) = true ->
                   fltb (place_rating p) (place_rating q) = false).
Proof.
  intros found. unfold found.
  rewrite search_places_in_area_from_eq. cbn [fst].
  split; [apply sorted_desc_sorted|]. split; [intros k; apply sorted_desc_stable|].
  intros test p Hfind q Hq Htest.
  set (l := sorted_desc place_rating
              (unique_by_id [] (fst (gather_places calls [] [])))) in *.
  assert (Hfind' : find (fun x => test (Place x)) l = Some p).
  { clear - Hfind. induction l as [|y l IH]; [discriminate Hfind|].
    cbn [map find] in *. destruct (test (Place y)).
    - inversion Hfind. reflexivity.
    - apply IH. exact Hfind. }
  apply (find_in_sorted place_rating (fun x => test (Place x)) l p);
    try assumption.
  apply sorted_desc_sorted.
Qed.

End PlaceSearchProperties.

(** * The properties at the sample inputs *)

Lemma Rltb_true (a b : R) : Rltb a b = true <-> (a < b)%R.
Proof.
  unfold Rltb. destruct (Rlt_dec a b); split; intros; try discriminate;
    try reflexivity; try assumption; contradiction.
Qed.

Lemma Rltb_false (a b : R) : Rltb a b = false <-> (b <= a)%R.
Proof.
  unfold Rltb. destruct (Rlt_dec a b); split; intros; try discriminate;
    try reflexivity; lra.
Qed.

Lemma Rleb_true (a b : R) : Rleb a b = true <-> (a <= b)%R.
Proof.
  unfold Rleb. destruct (Rle_dec a b); split; intros; try discriminate;
    try reflexivity; try assumption; contradiction.
Qed.

Lemma asin_nonneg (x : R) : (0 <= x -> 0 <= asin x)%R.
Proof.
  intros Hx. unfold asin.
  destruct (Rle_dec x (-1)) as [H1|H1]; [lra|].
  destruct (Rle_dec 1 x) as [H2|H2].
  - pose proof PI_RGT_0. lra.
  - assert (Hs : (0 < sqrt (1 - x²))%R).
    { apply sqrt_lt_R0. unfold Rsqr. nra. }
    assert (Harg : (0 <= x / sqrt (1 - x²))%R).
    { unfold Rdiv. apply Rmult_le_pos; [exact Hx|].
      left. apply Rinv_0_lt_compat. exact Hs. }
    destruct Harg as [Hpos|Hzero].
    + left. rewrite <- atan_0. apply atan_increasing. exact Hpos.
    + rewrite <- Hzero, atan_0. right. reflexivity.
Qed.

#[export] Instance R_PyFloatLaws : PyFloatLaws R.
Proof.
  constructor; cbn [of_int f1_5 fadd fsub fmul fdiv fneg fpow2 fltb fleb
                    feqb radians fsin fcos fasin fsqrt R_PyFloat]; intros.
  - unfold Reqb. destruct (Req_dec_T a b); split; intros; try discriminate;
      try reflexivity; try assumption; contradiction.
  - apply Rltb_false. lra.
  - apply Rltb_true in H, H0. apply Rltb_true. lra.
  - apply Rltb_false in H, H0. apply Rltb_false. lra.
  - apply Rltb_false in H, H0. lra.
  - apply Rltb_false. apply IZR_le. exact H.
  - apply Rltb_false in H, H0. apply Rltb_false.
    apply Rmult_le_pos; assumption.
  - apply Rltb_false. apply sqrt_pos.
  - apply Rltb_false in H. apply Rltb_false. apply asin_nonneg. exact H.
  - lra.
  - lra.
  - lra.
  - lra.
  - apply sin_neg.
  - apply sin_0.
  - ring.
  - ring.
  - ring.
  - ring.
  - ring.
  - apply sqrt_0.
  - apply asin_0.
Qed.

(** Seven days over five locations: the two days left over go to the
    first two locations. *)
Example distribute_seven_days_over_five :
  let a : Location R := Geocoded (town "Amsterdam" 52 5) in
  let b : Location R := Geocoded (town "Copenhagen" 56 13) in
  map entry_days
      (_distribute_days (C := sample_client (Ok [])) [a; b; a; b; a]
                        aug_03 7 1)
  = [2; 2; 1; 1; 1]
  /\ map entry_start_date
         (_distribute_days (C := sample_client (Ok [])) [a; b; a; b; a]
                           aug_03 7 1)
     = ["739466"; "739468"; "739470"; "739471"; "739472"].
Proof. split; reflexivity. Qed.

(** The capacity of the seven-day scenario of the specification. *)
Example capacity_of_seven_days : capacity 3 7 1 = 3.
Proof. reflexivity. Qed.

(** The directions URL replaces spaces by [+]. *)
Example directions_url_of_two_addresses :
  get_directions_url "Den Haag, Netherlands" "Copenhagen"
  = "https://www.google.com/maps/dir/Den+Haag,+Netherlands/Copenhagen".
Proof. reflexivity. Qed.

Lemma schedule_days_sum_to_total_days_witness :
  exists (it : Itinerary R) (w' : World R),
    generate_itinerary (C := sample_client (Ok [full_route]))
      "Amsterdam" "Copenhagen" aug_03 aug_10 None 3 1 [] = (Ok it, w')
    /\ total_of (it_daily_schedule it) = 7
    /\ map entry_days (it_daily_schedule it) = [4; 3].
Proof.
  eexists. eexists. split; [lazy; reflexivity|]. split.
  - eapply proj1, (schedule_days_sum_to_total_days
                      (C := sample_client (Ok [full_route]))
                      "Amsterdam" "Copenhagen" aug_03 aug_10 None 3 1 []).
    lazy; reflexivity.
  - reflexivity.
Defined.


Lemma travel_legs_count_witness :
  exists (it : Itinerary R) (w' : World R),
    generate_itinerary (C := sample_client (Ok [full_route]))
      "Amsterdam" "Copenhagen" aug_03 aug_10 None 3 1 [] = (Ok it, w')
    /\ List.length (it_locations it) = 2%nat
    /\ (List.length (it_travel_suggestions it)
        <= List.length (it_locations it) - 1)%nat.
Proof.
  eexists. eexists. split; [lazy; reflexivity|]. split; [reflexivity|].
  destruct (travel_legs_count
              (C := sample_client (Ok [full_route]))
              "Amsterdam" "Copenhagen" aug_03 aug_10 None 3 1 [] _ _
              ltac:(lazy; reflexivity))
    as (new & w2 & _ & _ & _ & _ & _ & Hle & _).
  exact Hle.
Defined.

(** C3 as stated fails: when the directions lookup for the only pair is
    answered with no route, the itinerary has two locations and no leg. *)
Lemma travel_legs_count_counterexample :
  exists (it : Itinerary R) (w' : World R),
    generate_itinerary (C := sample_client (Ok []))
      "Amsterdam" "Copenhagen" aug_03 aug_10 None 3 1 [] = (Ok it, w')
    /\ List.length (it_locations it) = 2%nat
    /\ List.length (it_travel_suggestions it) = 0%nat
    /\ List.length (it_travel_suggestions it)
       <> (List.length (it_locations it) - 1)%nat.
Proof.
  eexists. eexists. split; [lazy; reflexivity|].
  repeat split; try reflexivity. discriminate.
Qed.

Lemma directions_failures_in_assembly_witness :
  let a : Location R := Geocoded (town "Amsterdam" 52 5) in
  let b : Location R := Geocoded (town "Copenhagen" 56 13) in
  (exists suggestion,
      make_suggestion a b bare_route = Ok suggestion
      /\ leg_distance suggestion = JStr "Unknown"
      /\ leg_duration suggestion = JStr "Unknown")
  /\ _generate_travel_suggestions (C := sample_client (Ok [])) [a; b] []
     = (Ok [], [EDirections (coord_str a) (coord_str b) (Ok [])]).
Proof.
  intros a b.
  destruct (directions_failures_in_assembly (C := sample_client (Ok [])))
    as (Hunknown & Hskip & _).
  split.
  - apply (Hunknown a b bare_route (JArr [JObj []]) []); try reflexivity;
      left; reflexivity.
  - unfold _generate_travel_suggestions.
    rewrite (Hskip a b [] [] [] []); reflexivity.
Defined.

(** C4 as stated fails: when the directions call raises, the assembly and
    with it [generate_itinerary] stop with that error. *)
Lemma directions_failures_in_assembly_counterexample :
  let a : Location R := Geocoded (town "Amsterdam" 52 5) in
  let b : Location R := Geocoded (town "Copenhagen" 56 13) in
  let failing := sample_client (F := R) (Raise (ApiError "OVER_QUERY_LIMIT")) in
  _generate_travel_suggestions (C := failing) [a; b] []
  = (Raise (ApiError "OVER_QUERY_LIMIT"),
     [ELog ERROR "Error getting directions: OVER_QUERY_LIMIT";
      EDirections (coord_str a) (coord_str b)
                  (Raise (ApiError "OVER_QUERY_LIMIT"))])
  /\ exists w',
      generate_itinerary (C := failing)
        "Amsterdam" "Copenhagen" aug_03 aug_04 None 3 1 []
      = (Raise (ApiError "OVER_QUERY_LIMIT"), w').
Proof.
  intros a b failing. split.
  - reflexivity.
  - eexists. lazy. reflexivity.
Qed.

Lemma haversine_symmetric_and_zero_on_diagonal_witness :
  let a : Location R := Geocoded (town "Amsterdam" 52 5) in
  let b : Location R := Geocoded (town "Copenhagen" 56 13) in
  _calculate_distance a b = _calculate_distance b a
  /\ _calculate_distance a a = 0%R.
Proof.
  intros a b.
  destruct (haversine_symmetric_and_zero_on_diagonal (F := R))
    as [Hsym Hzero].
  split; [apply (Hsym a b) | apply (Hzero a)].
Defined.


Lemma constraint_failures_are_skipped_witness :
  let a : Location R := Geocoded (town "Amsterdam" 52 5) in
  let b : Location R := Geocoded (town "Copenhagen" 56 13) in
  _process_constraint_locations (C := sample_client (Ok [full_route]))
    ["Atlantis"; "Erewhon"] a b 3 []
  = (Ok [],
     [constraint_warning "Erewhon" (ApiError "REQUEST_DENIED");
      ELog ERROR "Error geocoding Erewhon: REQUEST_DENIED";
      EGeocode "Erewhon" (Raise (ApiError "REQUEST_DENIED"));
      constraint_warning "Atlantis"
        (ValueError "Could not find location: Atlantis");
      ELog ERROR
        "Error geocoding Atlantis: Could not find location: Atlantis";
      EGeocode "Atlantis" (Ok [])])
  /\ exists stops w',
      _find_intermediate_stops (C := sample_client (Ok [full_route]))
        a b (Some ["Atlantis"; "Erewhon"]) 3 7 1 [] = (Ok stops, w').
Proof.
  intros a b.
  destruct (constraint_failures_are_skipped
              (F := R) (C := sample_client (Ok [full_route])))
    as (_ & Hskip & Htotal).
  split.
  - unfold _process_constraint_locations.
    rewrite (Hskip a b 3 "Atlantis" ["Erewhon"] [] [] _ _ eq_refl).
    rewrite (Hskip a b 3 "Erewhon" [] [] _ _ _ eq_refl).
    reflexivity.
  - apply Htotal; [discriminate | intros e; discriminate].
Defined.

(** C9 fails at a one-day trip with [min_stay = 1]: no stop fits, the two
    end points remain, and the last entry takes the negative remainder. *)
Lemma last_entry_below_min_stay :
  exists (it : Itinerary R) (w' : World R),
    generate_itinerary (C := sample_client (Ok [full_route]))
      "Amsterdam" "Copenhagen" aug_03 aug_04 None 5 1 [] = (Ok it, w')
    /\ it_total_days it = 1
    /\ List.length (it_locations it) = 2%nat
    /\ map entry_days (it_daily_schedule it) = [1; 0]
    /\ ~ Forall (fun entry => 1 <= entry_days entry) (it_daily_schedule it).
Proof.
  eexists. eexists. split; [lazy; reflexivity|].
  repeat split; try reflexivity.
  intros H. inversion H as [|x l _ H2]; subst.
  inversion H2 as [|y l' Hy _]; subst.
  simpl in Hy. lia.
Qed.

(** On a round trip every stop is at position zero, and the order of the
    stops is kept. *)
Lemma route_order_is_a_stable_sort_witness :
  let a : Location R := Geocoded (town "Amsterdam" 52 5) in
  let b : Location R := Geocoded (town "Copenhagen" 56 13) in
  _sort_stops_by_route a a [b; a] = Ok [b; a].
Proof.
  intros a b.
  destruct (route_order_is_a_stable_sort a a [b; a])
    as (_ & _ & _ & ordered & Hsort & _ & _ & Hstable).
  assert (Hzero : forall s, feqb (position a a s) (of_int 0) = true).
  { intros s. apply feqb_eq. unfold position.
    rewrite (_calculate_distance_self a).
    replace (feqb (of_int 0) (of_int 0)) with true; [reflexivity|].
    symmetry. apply feqb_eq. reflexivity. }
  assert (Hall : forall l : list (Location R),
             filter (fun s => feqb (position a a s) (of_int 0)) l = l).
  { induction l as [|x l IH]; cbn [filter]; [reflexivity|].
    rewrite Hzero, IH. reflexivity. }
  specialize (Hstable (of_int 0)). rewrite !Hall in Hstable.
  rewrite Hsort, Hstable. reflexivity.
Defined.

(** A round trip from Amsterdam with Amsterdam itself as the constraint and
    room for one stop: the constraint is geocoded, accepted and returned. *)
Lemma detour_filter_witness :
  let g : GeoResult R := town "Amsterdam" 52 5 in
  let a : Location R := Geocoded g in
  let run :=
    _find_intermediate_stops (C := sample_client (Ok [full_route]))
      a a (Some ["Amsterdam"]) 1 7 1 [] in
  run = (Ok [a],
         [EGeocode "Amsterdam" (Ok [g]);
          EDirections (coord_str a) (coord_str a) (Ok [full_route])])
  /\ (In a [a]
      <-> fleb (fadd (_calculate_distance a a) (_calculate_distance a a))
               (fmul (_calculate_distance a a) f1_5) = true).
Proof.
  intros g a run.
  assert (Hreason : _is_location_reasonable a a a = true).
  { unfold _is_location_reasonable. cbv zeta.
    rewrite (_calculate_distance_self a).
    apply Rleb_true. cbn [fadd fmul f1_5 of_int R_PyFloat]. lra. }
  assert (Hrun :
    run = (Ok [a],
           [EGeocode "Amsterdam" (Ok [g]);
            EDirections (coord_str a) (coord_str a) (Ok [full_route])])).
  { unfold run.
    rewrite _find_intermediate_stops_stages by (try discriminate; reflexivity).
    cbv zeta. unfold bind at 1. rewrite get_directions_eq.
    cbn [client_directions sample_client].
    unfold bind at 1.
    unfold constraint_stage, _process_constraint_locations.
    rewrite constraint_loop_step, geocode_location_eq.
    cbn [client_geocode sample_client].
    change (sample_geocode (F := R) "Amsterdam") with (Ok [g]).
    cbv beta iota. fold a. rewrite Hreason. cbv zeta.
    change (Z.of_nat (List.length ([] ++ [a])) >=? capacity 1 7 1)
      with true.
    cbv iota.
    change (capacity 1 7 1 - Z.of_nat (List.length ([] ++ [a]))) with 0.
    unfold gap_stage. change (0 >? 0) with false. cbv iota.
    rewrite bind_ret_l. unfold bind at 1, lift.
    unfold _sort_stops_by_route.
    rewrite (sorted_eq _ (position a a))
      by (intros x _; apply route_position_eq).
    reflexivity. }
  split; [exact Hrun|].
  destruct (detour_filter (C := sample_client (Ok [full_route]))
              a a (Some ["Amsterdam"]) 1 7 1 [] _ _ Hrun)
    as (new & Hnew & Hiff & _).
  rewrite app_nil_r in Hnew. subst new.
  apply (Hiff g). exists "Amsterdam", []. left. reflexivity.
Defined.


(** * The further properties at the sample inputs *)

Lemma schedule_follows_locations_witness :
  exists (it : Itinerary R) (w' : World R),
    generate_itinerary (C := sample_client (Ok [full_route]))
      "Amsterdam" "Copenhagen" aug_03 aug_10 None 3 1 [] = (Ok it, w')
    /\ map entry_location (it_daily_schedule it) = it_locations it
    /\ it_locations it
       = [Geocoded (town "Amsterdam" 52 5);
          Geocoded (town "Copenhagen" 56 13)].
Proof.
  eexists. eexists. split; [lazy; reflexivity|]. split.
  - eapply proj1, (schedule_follows_locations
                     (C := sample_client (Ok [full_route]))
                     "Amsterdam" "Copenhagen" aug_03 aug_10 None 3 1 []).
    lazy; reflexivity.
  - reflexivity.
Defined.

Lemma schedule_dates_are_back_to_back_witness :
  exists (it : Itinerary R) (w' : World R),
    generate_itinerary (C := sample_client (Ok [full_route]))
      "Amsterdam" "Copenhagen" aug_03 aug_10 None 3 1 [] = (Ok it, w')
    /\ map entry_start_date (it_daily_schedule it) = ["739466"; "739470"]
    /\ map entry_end_date (it_daily_schedule it) = ["739470"; "739473"]
    /\ forall k entry next,
        nth_error (it_daily_schedule it) k = Some entry ->
        nth_error (it_daily_schedule it) (S k) = Some next ->
        entry_start_date next = entry_end_date entry.
Proof.
  eexists. eexists. split; [lazy; reflexivity|].
  split; [reflexivity|]. split; [reflexivity|].
  eapply proj1, proj2, (schedule_dates_are_back_to_back
                          (C := sample_client (Ok [full_route]))
                          "Amsterdam" "Copenhagen" aug_03 aug_10 None 3 1 []).
  lazy; reflexivity.
Defined.



Lemma schedule_min_stay_when_both_ends_fit_witness :
  exists (it : Itinerary R) (w' : World R),
    generate_itinerary (C := sample_client (Ok [full_route]))
      "Amsterdam" "Copenhagen" aug_03 aug_10 None 3 3 [] = (Ok it, w')
    /\ map entry_days (it_daily_schedule it) = [4; 3]
    /\ Forall (fun entry => 3 <= entry_days entry) (it_daily_schedule it).
Proof.
  eexists. eexists. split; [lazy; reflexivity|]. split; [reflexivity|].
  eapply proj2, (schedule_min_stay_when_both_ends_fit
                   (C := sample_client (Ok [full_route]))
                   "Amsterdam" "Copenhagen" aug_03 aug_10 None 3 3 []).
  - lia.
  - vm_compute. discriminate.
  - lazy; reflexivity.
Defined.

Lemma zero_min_stay_divides_by_zero_witness :
  generate_itinerary (F := R) (C := sample_client (Ok [full_route]))
    "Amsterdam" "Copenhagen" aug_03 aug_10 None 3 0 []
  = (Raise ZeroDivisionError,
     [ELog INFO "Planning route from Amsterdam to Copenhagen";
      EGeocode "Copenhagen" (Ok [town "Copenhagen" 56 13]);
      EGeocode "Amsterdam" (Ok [town "Amsterdam" 52 5])]).
Proof.
  apply (proj2 (zero_min_stay_divides_by_zero
                  (C := sample_client (Ok [full_route]))
                  "Amsterdam" "Copenhagen" aug_03 aug_10 None 3 []
                  ltac:(vm_compute; discriminate))
               (town "Amsterdam" 52 5)
               [EGeocode "Amsterdam" (Ok [town "Amsterdam" 52 5])]
               (town "Copenhagen" 56 13)
               [EGeocode "Copenhagen" (Ok [town "Copenhagen" 56 13]);
                EGeocode "Amsterdam" (Ok [town "Amsterdam" 52 5])]);
    reflexivity.
Defined.

Lemma itinerary_size_is_bounded_by_max_stops_witness :
  exists (it : Itinerary R) (w' : World R),
    generate_itinerary (C := sample_client (Ok [full_route]))
      "Amsterdam" "Copenhagen" aug_03 aug_10 None 3 1 [] = (Ok it, w')
    /\ 2 <= Z.of_nat (List.length (it_locations it)) <= Z.max 3 0 + 2.
Proof.
  eexists. eexists. split; [lazy; reflexivity|].
  eapply proj1, (itinerary_size_is_bounded_by_max_stops
                   (C := sample_client (Ok [full_route]))
                   "Amsterdam" "Copenhagen" aug_03 aug_10 None 3 1 []).
  lazy; reflexivity.
Defined.

Lemma endpoint_geocoding_failure_aborts_witness :
  generate_itinerary (F := R) (C := sample_client (Ok [full_route]))
    "Erewhon" "Copenhagen" aug_03 aug_10 None 3 1 []
  = (Raise (ApiError "REQUEST_DENIED"),
     [ELog ERROR "Error geocoding Erewhon: REQUEST_DENIED";
      EGeocode "Erewhon" (Raise (ApiError "REQUEST_DENIED"))])
  /\ generate_itinerary (F := R) (C := sample_client (Ok [full_route]))
       "Atlantis" "Copenhagen" aug_03 aug_10 None 3 1 []
     = (Raise (ValueError "Could not find location: Atlantis"),
        [ELog ERROR
           "Error geocoding Atlantis: Could not find location: Atlantis";
         EGeocode "Atlantis" (Ok [])]).
Proof.
  split.
  - apply (proj1 (endpoint_geocoding_failure_aborts
                    (C := sample_client (Ok [full_route]))
                    "Erewhon" "Copenhagen" aug_03 aug_10 None 3 1 []
                    ltac:(vm_compute; discriminate))).
    reflexivity.
  - apply (proj1 (proj2 (endpoint_geocoding_failure_aborts
                           (C := sample_client (Ok [full_route]))
                           "Atlantis" "Copenhagen" aug_03 aug_10 None 3 1 []
                           ltac:(vm_compute; discriminate)))).
    reflexivity.
Defined.

(** The cases of the tests of the command line helpers. *)
Example parse_locations_examples :
  parse_locations "Netherlands, Germany, Denmark"
  = ["Netherlands"; "Germany"; "Denmark"]
  /\ parse_locations "" = []
  /\ parse_locations " Netherlands , Germany , Denmark "
     = ["Netherlands"; "Germany"; "Denmark"]
  /\ parse_locations "Paris,, ,Den Haag," = ["Paris"; "Den Haag"].
Proof. repeat split; reflexivity. Qed.



Lemma place_search_errors_are_confined_witness :
  fst (search_places_in_area_from (F := R)
         [("museum", Raise (ApiError "OVER_QUERY_LIMIT"));
          ("park", Ok (Some [raw_place "Stadtpark" 4]))])
  = fst (search_places_in_area_from (F := R)
           [("park", Ok (Some [raw_place "Stadtpark" 4]))])
  /\ gather_places (F := R)
       [("museum",
         Ok (Some [raw_place "Kunsthalle" 5; nameless_place;
                   raw_place "Miniatur Wunderland" 5]))] [] []
     = ([mkPlace "Kunsthalle" "id-Kunsthalle" (of_int 53) (of_int 9)
                 (of_int 5) [] "Hamburg" "Hamburg" "museum"],
        ["Error searching for museum: 'name'"]).
Proof.
  destruct (place_search_errors_are_confined (F := R))
    as (Hraise & _ & Hcut).
  split.
  - apply (Hraise [] [("park", Ok (Some [raw_place "Stadtpark" 4]))]
                  "museum" (ApiError "OVER_QUERY_LIMIT")).
  - apply (Hcut [] "museum" [raw_place "Kunsthalle" 5]
                  [mkPlace "Kunsthalle" "id-Kunsthalle" (of_int 53)
                           (of_int 9) (of_int 5) [] "Hamburg" "Hamburg"
                           "museum"]
                  nameless_place [raw_place "Miniatur Wunderland" 5]
                  (KeyError "name") [] []).
    + simpl. lia.
    + constructor; [reflexivity | constructor].
    + reflexivity.
Defined.

Lemma search_places_best_rated_first_witness :
  StronglySorted (not_below place_rating)
    (fst (search_places_in_area_from (F := R)
            [("museum", Ok (Some [raw_place "Kunsthalle" 4;
                                  raw_place "Miniatur Wunderland" 5]));
             ("park", Ok (Some [raw_place "Stadtpark" 4;
                                raw_place "Kunsthalle" 4]))])).
Proof.
  apply (proj1 (search_places_best_rated_first (F := R) _)).
Defined.

(** * Properties over the real numbers *)

Lemma real_distance (a b : Location R) :
  exists x : R,
    _calculate_distance a b = (2 * asin (sqrt x) * 6371000)%R.
Proof. eexists. reflexivity. Qed.

(** X18. With real arithmetic the distance between two locations lies
    between zero and half the circumference of the Earth,
    [pi * 6371000] metres. *)
Theorem distance_is_at_most_half_the_circumference (a b : Location R) :
  (0 <= _calculate_distance a b <= PI * 6371000)%R.
Proof.
  destruct (real_distance a b) as [x ->].
  pose proof (asin_bound (sqrt x)) as [_ Hup].
  pose proof (asin_nonneg (sqrt x) (sqrt_pos x)) as Hlow.
  split; nra.
Qed.

Lemma real_reasonable (start_geo end_geo location : Location R) :
  _is_location_reasonable start_geo end_geo location = true
  <-> (_calculate_distance start_geo location
       + _calculate_distance location end_geo
       <= _calculate_distance start_geo end_geo * (3 / 2))%R.
Proof. unfold _is_location_reasonable. cbv zeta. apply Rleb_true. Qed.

(** X19. With real arithmetic, when start and end are at distance zero (a
    round trip) the detour filter accepts a location only if it is at
    distance zero from both; in particular for a trip from a place to the
    same place, a constraint passes only if it is at distance zero from
    that place. *)
Theorem round_trip_accepts_no_detour (start_geo end_geo location : Location R) :
  (_calculate_distance start_geo end_geo = 0%R ->
   (_is_location_reasonable start_geo end_geo location = true
    <-> _calculate_distance start_geo location = 0%R
        /\ _calculate_distance location end_geo = 0%R))
  /\ (_is_location_reasonable start_geo start_geo location = true
      <-> _calculate_distance start_geo location = 0%R).
Proof.
  pose proof (distance_is_at_most_half_the_circumference start_geo location)
    as [H1 _].
  pose proof (distance_is_at_most_half_the_circumference location end_geo)
    as [H2 _].
  split.
  - intros Hz. rewrite real_reasonable, Hz. split.
    + intros H. split; lra.
    + intros [-> ->]. lra.
  - rewrite real_reasonable.
    rewrite (_calculate_distance_self start_geo).
    rewrite (_calculate_distance_sym location start_geo).
    cbn [of_int R_PyFloat]. split; intros H; lra.
Qed.

(** X20. With real arithmetic the start and the end themselves pass the
    detour filter, so a constraint that geocodes to one of them is
    accepted as a stop; and the filter does not change when start and end
    are exchanged. *)
Theorem detour_filter_accepts_the_ends (start_geo end_geo location : Location R) :
  _is_location_reasonable start_geo end_geo start_geo = true
  /\ _is_location_reasonable start_geo end_geo end_geo = true
  /\ _is_location_reasonable end_geo start_geo location
     = _is_location_reasonable start_geo end_geo location.
Proof.
  pose proof (distance_is_at_most_half_the_circumference start_geo end_geo)
    as [Hd _].
  split; [|split].
  - apply real_reasonable. rewrite (_calculate_distance_self start_geo).
    cbn [of_int R_PyFloat]. lra.
  - apply real_reasonable. rewrite (_calculate_distance_self end_geo).
    cbn [of_int R_PyFloat]. lra.
  - unfold _is_location_reasonable. cbv zeta.
    rewrite (_calculate_distance_sym end_geo location).
    rewrite (_calculate_distance_sym location start_geo).
    rewrite (_calculate_distance_sym end_geo start_geo).
    cbn [fadd R_PyFloat]. rewrite Rplus_comm. reflexivity.
Qed.

(** X21. With real arithmetic the [i]-th search point of the gap filling,
    for [1 <= i <= num_stops], lies between the start and the end in
    latitude and in longitude. *)
Theorem search_points_lie_between_the_ends
    (start_geo end_geo : Location R) (num_stops i : Z) :
  1 <= i <= num_stops ->
  let point := interpolate start_geo end_geo
                 (fdiv (of_int i) (of_int (num_stops + 1))) in
  (Rmin (lat start_geo) (lat end_geo) <= coord_lat point
   <= Rmax (lat start_geo) (lat end_geo))%R
  /\ (Rmin (lng start_geo) (lng end_geo) <= coord_lng point
      <= Rmax (lng start_geo) (lng end_geo))%R.
Proof.
  intros Hi point. unfold point, interpolate.
  cbn [coord_lat coord_lng fadd fmul fsub fdiv of_int R_PyFloat].
  assert (H0 : (0 < IZR i)%R) by (apply IZR_lt; lia).
  assert (H1 : (IZR i < IZR (num_stops + 1))%R) by (apply IZR_lt; lia).
  set (r := (IZR i / IZR (num_stops + 1))%R).
  assert (Hr : (0 < r < 1)%R).
  { unfold r. split.
    - apply Rdiv_lt_0_compat; lra.
    - apply (Rmult_lt_reg_r (IZR (num_stops + 1))); [lra|].
      unfold Rdiv. rewrite Rmult_assoc, Rinv_l by lra. lra. }
  unfold Rmin, Rmax.
  split; destruct (Rle_dec _ _); split; nra.
Qed.

(** X22. With real arithmetic the position of a stop along the route is
    never negative, the start is at position zero, and when start and end
    are apart the end is at position one. *)
Theorem positions_of_the_ends (start_geo end_geo stop : Location R) :
  route_position start_geo end_geo start_geo = Ok 0%R
  /\ (_calculate_distance start_geo end_geo <> 0%R ->
      route_position start_geo end_geo end_geo = Ok 1%R)
  /\ exists k, route_position start_geo end_geo stop = Ok k /\ (0 <= k)%R.
Proof.
  pose proof (distance_is_at_most_half_the_circumference start_geo end_geo)
    as [Hd _].
  pose proof (distance_is_at_most_half_the_circumference start_geo stop)
    as [Hs _].
  rewrite !route_position_eq. unfold position.
  cbn [feqb fdiv of_int R_PyFloat]. unfold Reqb.
  rewrite (_calculate_distance_self start_geo). cbn [of_int R_PyFloat].
  destruct (Req_dec_T (_calculate_distance start_geo end_geo) 0)
    as [Hz|Hnz].
  - split; [reflexivity|]. split; [intros H; contradiction|].
    exists 0%R. split; [reflexivity | lra].
  - split; [f_equal; unfold Rdiv; ring|].
    split; [intros _; f_equal; field; exact Hnz|].
    eexists. split; [reflexivity|].
    apply Rmult_le_pos; [exact Hs|].
    left. apply Rinv_0_lt_compat. lra.
Qed.

Lemma search_points_lie_between_the_ends_witness :
  let a : Location R := Geocoded (town "Amsterdam" 52 5) in
  let b : Location R := Geocoded (town "Copenhagen" 56 13) in
  let point := interpolate a b (fdiv (of_int 2) (of_int (3 + 1))) in
  (Rmin (lat a) (lat b) <= coord_lat point <= Rmax (lat a) (lat b))%R
  /\ (Rmin (lng a) (lng b) <= coord_lng point <= Rmax (lng a) (lng b))%R.
Proof.
  intros a b.
  apply (search_points_lie_between_the_ends a b 3 2). lia.
Defined.

Lemma round_trip_accepts_no_detour_witness :
  let a : Location R := Geocoded (town "Amsterdam" 52 5) in
  let b : Location R := Geocoded (town "Copenhagen" 56 13) in
  _is_location_reasonable a a b = true
  <-> _calculate_distance a b = 0%R /\ _calculate_distance b a = 0%R.
Proof.
  intros a b.
  apply (proj1 (round_trip_accepts_no_detour a a b)).
  exact (_calculate_distance_self a).
Defined.


(** The single leg of the sample itinerary joins its two ends. *)
Lemma travel_legs_follow_the_route_witness :
  exists (it : Itinerary R) (w' : World R),
    generate_itinerary (C := sample_client (Ok [full_route]))
      "Amsterdam" "Copenhagen" aug_03 aug_10 None 3 1 [] = (Ok it, w')
    /\ exists pairs,
        subsequence pairs (consecutive_pairs (it_locations it))
        /\ Forall2 (fun leg pair => leg_joins leg (fst pair) (snd pair))
                   (it_travel_suggestions it) pairs.
Proof.
  eexists. eexists. split; [lazy; reflexivity|].
  apply (travel_legs_follow_the_route
           (C := sample_client (Ok [full_route]))
           "Amsterdam" "Copenhagen" aug_03 aug_10 None 3 1 [] _ _
           ltac:(lazy; reflexivity)).
Defined.

(** A route without legs, and a route whose first leg has no distance
    dict. *)
Lemma malformed_legs_abort_the_assembly_witness :
  let a : Location R := Geocoded (town "Amsterdam" 52 5) in
  let b : Location R := Geocoded (town "Copenhagen" 56 13) in
  let no_legs : Route R := [("legs", JArr [])] in
  let no_distance : Route R := [("legs", JArr [JObj [("distance", JNull)]])] in
  suggestions_loop (C := sample_client (Ok [no_legs])) [a; b] [] []
  = (Raise IndexError,
     [EDirections (coord_str a) (coord_str b) (Ok [no_legs])])
  /\ suggestions_loop (C := sample_client (Ok [no_distance])) [a; b] [] []
     = (Raise AttributeError,
        [EDirections (coord_str a) (coord_str b) (Ok [no_distance])]).
Proof.
  intros a b no_legs no_distance. split.
  - apply (malformed_legs_abort_the_assembly
             (C := sample_client (Ok [no_legs])) a b [] [] []
             [no_legs] eq_refl).
    reflexivity.
  - apply (proj2 (malformed_legs_abort_the_assembly
                    (C := sample_client (Ok [no_distance])) a b [] [] []
                    [no_distance] eq_refl)
             [("distance", JNull)] [] JNull); reflexivity.
Defined.

